(** * A shallow embedding of the event manager (src/index.ts)

    The registry ([EventManager.listeners], [EventManager.handlerCounter]),
    its operations and the dispatch loop of [EventManager.emit] are written
    as Rocq functions with explicit state passing.  Handlers are callbacks
    supplied by the host; their behaviour is a parameter of the dispatch
    loop. *)

From Stdlib Require Import List String Ascii ZArith NArith Bool Lia.
From Stdlib Require Import Sorted Permutation DecimalString DecimalN.
Import ListNotations.

Set Implicit Arguments.
Set Default Proof Using "Type".

Local Open Scope string_scope.
Local Open Scope list_scope.

(* ================================================================== *)
(** ** JavaScript numbers and strings *)

Module JsNumber.

(** Largest integer n such that every integer in [0, n] is a double and
    n + 1 is still computed exactly: 2^53 = 9007199254740992. *)
Definition two53 : N := 9007199254740992.

(** [++x] on a [number] holding an integer in [0, 2^53].  IEEE-754
    addition is exact below 2^53; at 2^53 the sum 2^53 + 1 is not
    representable and rounds (ties to even) back to 2^53. *)
Definition incr (n : N) : N :=
  if (n <? two53)%N then (n + 1)%N else n.

(** Template-literal rendering [`${n}`] of an integer below 10^21:
    plain decimal digits. *)
Definition to_string (n : N) : string :=
  NilZero.string_of_uint (N.to_uint n).

End JsNumber.

(* ================================================================== *)
(** ** JavaScript [Map<string, V>]

    A [Map] iterates in insertion order, [set] on a present key keeps the
    key's position, [delete] removes the key.  The table is an association
    list in insertion order. *)

Module JsMap.
Section Defs.
Variable V : Type.

Definition t := list (string * V).

Definition empty : t := [].

Fixpoint get (k : string) (m : t) : option V :=
  match m with
  | [] => None
  | (k', v) :: m' => if String.eqb k' k then Some v else get k m'
  end.

Definition has (k : string) (m : t) : bool :=
  match get k m with Some _ => true | None => false end.

Fixpoint set (k : string) (v : V) (m : t) : t :=
  match m with
  | [] => [(k, v)]
  | (k', v') :: m' =>
      if String.eqb k' k then (k', v) :: m' else (k', v') :: set k v m'
  end.

Definition delete (k : string) (m : t) : t :=
  filter (fun e => negb (String.eqb (fst e) k)) m.

Definition clear (m : t) : t := [].

Definition entries (m : t) : list (string * V) := m.

Definition keys (m : t) : list string := map fst m.

End Defs.
Arguments empty {V}.
End JsMap.

(* ================================================================== *)
(** ** Data model *)

(** [enum EventPriority] with its numeric values. *)
Inductive EventPriority : Type :=
  | MONITOR | HIGHEST | HIGH | NORMAL | LOW | LOWEST.

Definition priority_value (p : EventPriority) : Z :=
  match p with
  | MONITOR => 0 | HIGHEST => 1 | HIGH => 2
  | NORMAL => 3 | LOW => 4 | LOWEST => 5
  end%Z.

Definition priority_eqb (p q : EventPriority) : bool :=
  (priority_value p =? priority_value q)%Z.

Definition all_priorities : list EventPriority :=
  [MONITOR; HIGHEST; HIGH; NORMAL; LOW; LOWEST].

(** The two private fields of [CancellableEvent]. *)
Record CancellableEvent : Type := mkCancellable {
  cancelled : bool;
  cancelReason : string
}.

(** [new CancellableEvent()]: [cancelled = false], [cancelReason = '']. *)
Definition new_cancellable : CancellableEvent :=
  {| cancelled := false; cancelReason := "" |}.

Definition isCancelled (e : CancellableEvent) : bool := cancelled e.

Definition getCancelReason (e : CancellableEvent) : string := cancelReason e.

(** [cancel(reason: string = '')]; [None] is a call without argument. *)
Definition cancel (reason : option string) (e : CancellableEvent)
  : CancellableEvent :=
  let reason := match reason with Some r => r | None => "" end in
  {| cancelled := true; cancelReason := reason |}.

(** An event instance as [emit] sees it: the name of its constructor and,
    when it is an [instanceof CancellableEvent], its cancellation fields. *)
Record Event : Type := mkEvent {
  constructor_name : string;
  cancellation : option CancellableEvent
}.

(** [event instanceof CancellableEvent && event.isCancelled()] *)
Definition event_is_cancelled (e : Event) : bool :=
  match cancellation e with
  | Some c => isCancelled c
  | None => false
  end.

(** One entry of [EventResult.executedHandlers] (timings are wall-clock
    readings and are not part of the model). *)
Record ExecutionDetail : Type := mkDetail {
  detail_priority : EventPriority;
  handlerId : string
}.

Record EventResult : Type := mkResult {
  result_event : Event;
  handlerCount : nat;
  executedHandlers : list ExecutionDetail
}.

Section Registry.
(** The type of handler callbacks. *)
Variable Handler : Type.

(** [interface EventHandlerMetadata] *)
Record EventHandlerMetadata : Type := mkMeta {
  handler : Handler;
  priority : EventPriority;
  id : string
}.

(** The comparator [(a, b) => a.priority - b.priority]. *)
Definition compare_priority (a b : EventHandlerMetadata) : Z :=
  (priority_value (priority a) - priority_value (priority b))%Z.

(** [Array.prototype.sort] with that comparator.  The sort is stable
    (ECMAScript 2019), so its result is the one stable arrangement of the
    input; it is computed here by stable insertion. *)
Fixpoint sort_insert (x : EventHandlerMetadata)
    (l : list EventHandlerMetadata) : list EventHandlerMetadata :=
  match l with
  | [] => [x]
  | y :: l' =>
      if (compare_priority x y <=? 0)%Z then x :: y :: l'
      else y :: sort_insert x l'
  end.

Definition sort (l : list EventHandlerMetadata) : list EventHandlerMetadata :=
  fold_right sort_insert [] l.

(** [handlers.findIndex(pred)]; [None] is -1. *)
Fixpoint findIndex (pred : EventHandlerMetadata -> bool)
    (l : list EventHandlerMetadata) : option nat :=
  match l with
  | [] => None
  | x :: l' =>
      if pred x then Some 0
      else match findIndex pred l' with
           | Some i => Some (S i)
           | None => None
           end
  end.

(** [handlers.splice(index, 1)]: the array without the element at
    [index]. *)
Fixpoint splice1 (index : nat) (l : list EventHandlerMetadata)
    : list EventHandlerMetadata :=
  match l, index with
  | [], _ => []
  | _ :: l', 0 => l'
  | x :: l', S i => x :: splice1 i l'
  end.

(** [class EventManager]: the [listeners] map and [handlerCounter]. *)
Record EventManager : Type := mkManager {
  listeners : JsMap.t (list EventHandlerMetadata);
  handlerCounter : N
}.

(** [new EventManager()] *)
Definition new_manager : EventManager :=
  {| listeners := JsMap.empty; handlerCounter := 0 |}.

(** [this.listeners.get(eventName) || []] *)
Definition bucket (eventName : string) (m : EventManager)
    : list EventHandlerMetadata :=
  match JsMap.get eventName (listeners m) with
  | Some handlers => handlers
  | None => []
  end.

(** [register(eventClass, handler, priority)], with [eventName] standing
    for [eventClass.name].  The array held by the map is pushed to and
    sorted in place, which is a [set] at the same key. *)
Definition register (eventName : string) (h : Handler)
    (p : EventPriority) (m : EventManager) : string * EventManager :=
  let listeners1 :=
    if negb (JsMap.has eventName (listeners m))
    then JsMap.set eventName [] (listeners m)
    else listeners m in
  let counter := JsNumber.incr (handlerCounter m) in
  let handlerId := String.append "handler_" (JsNumber.to_string counter) in
  let handlers :=
    match JsMap.get eventName listeners1 with
    | Some handlers => handlers
    | None => []
    end in
  let pushed := handlers ++ [mkMeta h p handlerId] in
  (handlerId,
   {| listeners := JsMap.set eventName (sort pushed) listeners1;
      handlerCounter := counter |}).

(** [register] with the default [priority = EventPriority.NORMAL]. *)
Definition register_default (eventName : string) (h : Handler)
    (m : EventManager) : string * EventManager :=
  register eventName h NORMAL m.

(** The [for ... of this.listeners.entries()] loop of [unregister]: the
    first bucket holding the id loses its first such record (and the key
    when it becomes empty), then the loop breaks. *)
Fixpoint unregister_loop (handlerId : string)
    (entries : list (string * list EventHandlerMetadata))
    (ls : JsMap.t (list EventHandlerMetadata))
    : bool * JsMap.t (list EventHandlerMetadata) :=
  match entries with
  | [] => (false, ls)
  | (eventName, handlers) :: rest =>
      match findIndex (fun h => String.eqb (id h) handlerId) handlers with
      | Some index =>
          let handlers' := splice1 index handlers in
          (true,
           if Nat.eqb (List.length handlers') 0
           then JsMap.delete eventName ls
           else JsMap.set eventName handlers' ls)
      | None => unregister_loop handlerId rest ls
      end
  end.

Definition unregister (handlerId : string) (m : EventManager)
    : bool * EventManager :=
  let (removed, ls) :=
    unregister_loop handlerId (JsMap.entries (listeners m)) (listeners m) in
  (removed, {| listeners := ls; handlerCounter := handlerCounter m |}).

(** [unregisterAll(eventClass?)] *)
Definition unregisterAll (eventName : option string) (m : EventManager)
    : EventManager :=
  match eventName with
  | Some name =>
      {| listeners := JsMap.delete name (listeners m);
         handlerCounter := handlerCounter m |}
  | None =>
      {| listeners := JsMap.clear (listeners m);
         handlerCounter := handlerCounter m |}
  end.

(** [unregisterByPriority(eventClass, priority)] *)
Definition unregisterByPriority (eventName : string) (p : EventPriority)
    (m : EventManager) : EventManager :=
  match JsMap.get eventName (listeners m) with
  | Some handlers =>
      let filteredHandlers :=
        filter (fun h => negb (priority_eqb (priority h) p)) handlers in
      {| listeners :=
           if Nat.eqb (List.length filteredHandlers) 0
           then JsMap.delete eventName (listeners m)
           else JsMap.set eventName filteredHandlers (listeners m);
         handlerCounter := handlerCounter m |}
  | None => m
  end.

(** [getHandlerIds(eventClass)] *)
Definition getHandlerIds (eventName : string) (m : EventManager)
    : list string :=
  match JsMap.get eventName (listeners m) with
  | Some handlers => map id handlers
  | None => []
  end.

(** [hasHandlers(eventClass)] *)
Definition hasHandlers (eventName : string) (m : EventManager) : bool :=
  JsMap.has eventName (listeners m)
  && match JsMap.get eventName (listeners m) with
     | Some handlers => Nat.ltb 0 (List.length handlers)
     | None => false
     end.

(** [getHandlerCount(eventClass)] *)
Definition getHandlerCount (eventName : string) (m : EventManager) : nat :=
  match JsMap.get eventName (listeners m) with
  | Some handlers => List.length handlers
  | None => 0
  end.

(** [h] was registered at priority [p]. *)
Definition has_priority (p : EventPriority) (h : EventHandlerMetadata)
    : bool :=
  priority_eqb (priority h) p.

(** Non-decreasing numeric priority. *)
Definition priority_le (a b : EventHandlerMetadata) : Prop :=
  (priority_value (priority a) <= priority_value (priority b))%Z.

(** The records of [l] tier by tier, MONITOR first and LOWEST last, each
    tier in the order it has in [l]. *)
Definition by_tier (l : list EventHandlerMetadata)
    : list EventHandlerMetadata :=
  flat_map (fun p => filter (has_priority p) l) all_priorities.



(** The entry that [emit] records for a handler it ran. *)
Definition detail_of (h : EventHandlerMetadata) : ExecutionDetail :=
  mkDetail (priority h) (id h).

(** Every id stored anywhere in the table, bucket after bucket. *)
Definition table_ids (ls : JsMap.t (list EventHandlerMetadata))
    : list string :=
  flat_map (fun e => map id (snd e)) ls.

Definition all_ids (m : EventManager) : list string :=
  table_ids (listeners m).

(** No key of the table is bound to an empty array. *)
Definition no_empty_bucket (m : EventManager) : Prop :=
  Forall (fun e => snd e <> []) (listeners m).

(** Every array of the table is in non-decreasing priority order. *)
Definition buckets_sorted (m : EventManager) : Prop :=
  Forall (fun e => StronglySorted priority_le (snd e)) (listeners m).

(** [findIndex] followed by [splice(index, 1)] in one pass: the array
    without its first record satisfying [pred] (the array itself when
    there is none). *)
Fixpoint remove_first (pred : EventHandlerMetadata -> bool)
    (l : list EventHandlerMetadata) : list EventHandlerMetadata :=
  match l with
  | [] => []
  | x :: l' => if pred x then l' else x :: remove_first pred l'
  end.

(** The id that the [n]-th [register] call of a manager returns while the
    counter is exact. *)
Definition nth_id (n : nat) : string :=
  String.append "handler_" (JsNumber.to_string (N.of_nat n)).

End Registry.

Arguments mkMeta {Handler} _ _ _.
Arguments new_manager {Handler}.

(* ================================================================== *)
(** ** Sequences of registry operations *)

Section Operations.
Variable Handler : Type.

(** One call of the registry's mutating interface. *)
Inductive Op : Type :=
  | OpRegister (eventName : string) (h : Handler) (p : EventPriority)
  | OpUnregister (handlerId : string)
  | OpUnregisterAll (eventName : option string)
  | OpUnregisterByPriority (eventName : string) (p : EventPriority).

Definition apply_op (o : Op) (m : EventManager Handler)
    : EventManager Handler :=
  match o with
  | OpRegister eventName h p => snd (register eventName h p m)
  | OpUnregister handlerId => snd (unregister handlerId m)
  | OpUnregisterAll eventName => unregisterAll eventName m
  | OpUnregisterByPriority eventName p => unregisterByPriority eventName p m
  end.

Fixpoint run_ops (ops : list Op) (m : EventManager Handler)
    : EventManager Handler :=
  match ops with
  | [] => m
  | o :: ops' => run_ops ops' (apply_op o m)
  end.

(** The ids returned by the [register] calls of a run, in call order. *)
Fixpoint issued_ids (ops : list Op) (m : EventManager Handler)
    : list string :=
  match ops with
  | [] => []
  | o :: ops' =>
      match o with
      | OpRegister eventName h p => [fst (register eventName h p m)]
      | _ => []
      end ++ issued_ids ops' (apply_op o m)
  end.

(** The number of [register] calls in a run. *)
Definition register_calls (ops : list Op) : nat :=
  List.length (filter (fun o => match o with OpRegister _ _ _ => true
                                        | _ => false end) ops).

End Operations.

Arguments OpRegister {Handler} _ _ _.
Arguments OpUnregister {Handler} _.
Arguments OpUnregisterAll {Handler} _.
Arguments OpUnregisterByPriority {Handler} _ _.

(* ================================================================== *)
(** ** Dispatch: [EventManager.emit] *)

Section Dispatch.
Variables Handler Env Error : Type.

(** What a handler can reach while it runs: the manager it was registered
    on, the event object being emitted, and the rest of the host's
    state. *)
Record World : Type := mkWorld {
  manager : EventManager Handler;
  event : Event;
  env : Env
}.

(** How a call ends: it returns, or it throws (a rejected promise is a
    throw at the [await]).  Either way the state reached so far stays. *)
Inductive Completion (A : Type) : Type :=
  | Returned (a : A) (w : World)
  | Threw (e : Error) (w : World).

(** [await handler(event)]: what a handler does to the world. *)
Variable call : Handler -> World -> Completion unit.

(** The [for ... of handlers] loop of [emit].  Besides the loop's own
    result the function lists the records whose handler it called, in
    call order. *)
Fixpoint emit_loop (handlers : list (EventHandlerMetadata Handler))
    (executedHandlers : nat) (executionDetails : list ExecutionDetail)
    (w : World)
    : list (EventHandlerMetadata Handler)
      * Completion (nat * list ExecutionDetail) :=
  match handlers with
  | [] => ([], Returned (executedHandlers, executionDetails) w)
  | h :: rest =>
      if event_is_cancelled (event w)
      then ([], Returned (executedHandlers, executionDetails) w)
      else
        match call (handler h) w with
        | Threw _ e w' => ([h], Threw _ e w')
        | Returned _ w' =>
            let (invoked, c) :=
              emit_loop rest (S executedHandlers)
                (executionDetails ++ [mkDetail (priority h) (id h)]) w' in
            (h :: invoked, c)
        end
  end.

(** [[...(this.listeners.get(eventName) || [])].sort(...)]: a sorted copy
    of the bucket of [event.constructor.name].  The spread makes a new
    array, so the in-place [push], [sort] and [splice] that [register] and
    [unregister] apply to the array held by the map never reach it; the
    records themselves are shared with the map, and no operation writes to
    a record.  A list value is therefore an exact model of the copy. *)
Definition emit_snapshot (w : World) : list (EventHandlerMetadata Handler) :=
  sort (bucket (constructor_name (event w)) (manager w)).

Definition emit_run (w : World)
    : list (EventHandlerMetadata Handler)
      * Completion (nat * list ExecutionDetail) :=
  emit_loop (emit_snapshot w) 0 [] w.

(** [emit(event)] *)
Definition emit (w : World) : Completion EventResult :=
  match snd (emit_run w) with
  | Returned (n, details) w' =>
      Returned {| result_event := event w';
                  handlerCount := n;
                  executedHandlers := details |} w'
  | Threw _ e w' => Threw _ e w'
  end.

(** The records whose handler [emit] called, in call order. *)
Definition emit_invoked (w : World) : list (EventHandlerMetadata Handler) :=
  fst (emit_run w).

(** Running the handlers of [hs] one after the other, each on the world
    its predecessor left, as long as they return. *)
Fixpoint run_all (hs : list (EventHandlerMetadata Handler)) (w : World)
    : Completion unit :=
  match hs with
  | [] => Returned tt w
  | h :: rest =>
      match call (handler h) w with
      | Returned _ w' => run_all rest w'
      | Threw _ e w' => Threw _ e w'
      end
  end.

Definition world_of (A : Type) (c : Completion A) : World :=
  match c with
  | Returned _ w => w
  | Threw _ _ w => w
  end.

(** [dispatched hs w w']: from [w] the loop calls the handlers of [hs] one
    after the other, each on an event that is not cancelled when its turn
    comes, each returning, and the last one leaves [w']. *)
Inductive dispatched
    : list (EventHandlerMetadata Handler) -> World -> World -> Prop :=
  | dispatched_nil : forall w, dispatched [] w w
  | dispatched_cons : forall h hs w w' w'',
      event_is_cancelled (event w) = false ->
      call (handler h) w = Returned tt w' ->
      dispatched hs w' w'' ->
      dispatched (h :: hs) w w''.

End Dispatch.

Arguments Returned {Handler Env Error A} _ _.
Arguments Threw {Handler Env Error A} _ _.
Arguments mkWorld {Handler Env} _ _ _.

(* ================================================================== *)
(** ** Scripted handlers

    A concrete family of handlers: a handler is the list of calls it makes
    on the event, on the manager and on a log kept by the host (the
    [calls.push(...)] of the test suite). *)

#[warnings="-register-all"]
Inductive Action : Type :=
  | Push (tag : string)
  | Cancel (reason : option string)
  | Throw (error : string)
  | CallRegister (eventName : string) (body : list Action)
      (p : EventPriority)
  | CallUnregister (handlerId : string)
  | CallUnregisterAll (eventName : option string)
  | CallUnregisterByPriority (eventName : string) (p : EventPriority).

Definition Script : Type := list Action.

Definition ScriptWorld : Type := World Script (list string).

Definition with_manager (m : EventManager Script) (w : ScriptWorld)
    : ScriptWorld :=
  mkWorld m (event w) (env w).

Fixpoint run_script (s : Script) (w : ScriptWorld)
    : Completion Script (list string) string unit :=
  match s with
  | [] => Returned tt w
  | a :: s' =>
      match a with
      | Push tag =>
          run_script s' (mkWorld (manager w) (event w) (env w ++ [tag]))
      | Cancel reason =>
          match cancellation (event w) with
          | Some c =>
              run_script s'
                (mkWorld (manager w)
                   (mkEvent (constructor_name (event w))
                      (Some (cancel reason c)))
                   (env w))
          | None => Threw "TypeError: event.cancel is not a function" w
          end
      | Throw error => Threw error w
      | CallRegister eventName body p =>
          run_script s'
            (with_manager (snd (register eventName body p (manager w))) w)
      | CallUnregister handlerId =>
          run_script s'
            (with_manager (snd (unregister handlerId (manager w))) w)
      | CallUnregisterAll eventName =>
          run_script s' (with_manager (unregisterAll eventName (manager w)) w)
      | CallUnregisterByPriority eventName p =>
          run_script s'
            (with_manager (unregisterByPriority eventName p (manager w)) w)
      end
  end.

(** [emit] for scripted handlers. *)
Definition emit_script (w : ScriptWorld)
    : Completion Script (list string) string EventResult :=
  emit run_script w.

(* ================================================================== *)
(** ** The scenarios of test/event-manager.test.js *)

Module Scenario.

Definition my_event : Event := mkEvent "MyEvent" None.

Definition my_cancellable_event : Event :=
  mkEvent "MyCancellableEvent" (Some new_cancellable).

(** 'register and emit: handlers execute in priority order' *)
Definition priority_order : ScriptWorld :=
  mkWorld
    (run_ops [OpRegister "MyEvent" [Push "low"] LOWEST;
              OpRegister "MyEvent" [Push "high"] HIGH;
              OpRegister "MyEvent" [Push "monitor"] MONITOR]
       new_manager)
    my_event [].

(** Two tiers, two handlers each, registered alternately. *)
Definition ties : ScriptWorld :=
  mkWorld
    (run_ops [OpRegister "MyEvent" [Push "normal-1"] NORMAL;
              OpRegister "MyEvent" [Push "high-1"] HIGH;
              OpRegister "MyEvent" [Push "normal-2"] NORMAL;
              OpRegister "MyEvent" [Push "high-2"] HIGH]
       new_manager)
    my_event [].

(** 'cancellable event: stops further handler execution and keeps
    reason' *)
Definition cancelling : ScriptWorld :=
  mkWorld
    (run_ops [OpRegister "MyCancellableEvent"
                [Push "first"; Cancel (Some "stop-now")] NORMAL;
              OpRegister "MyCancellableEvent"
                [Push "second-should-not-run"] LOW]
       new_manager)
    my_cancellable_event [].

(** 'unregister by id removes the handler' *)
Definition unregistering : ScriptWorld :=
  mkWorld
    (run_ops [OpRegister "MyEvent" [Push "first"] NORMAL;
              OpRegister "MyEvent" [Push "second"] NORMAL;
              OpUnregister "handler_1"]
       new_manager)
    my_event [].

(** The same manager before its [unregister] call. *)
Definition two_handlers : EventManager Script :=
  run_ops [OpRegister "MyEvent" [Push "first"] NORMAL;
           OpRegister "MyEvent" [Push "second"] NORMAL]
    new_manager.

(** 'unregisterAll for a specific event clears only that event' *)
Definition two_types : EventManager Script :=
  run_ops [OpRegister "MyEvent" [] NORMAL;
           OpRegister "AnotherEvent" [] NORMAL]
    new_manager.

(** 'unregisterByPriority removes all handlers with given priority' *)
Definition three_handlers : EventManager Script :=
  run_ops [OpRegister "MyEvent" [] HIGH;
           OpRegister "MyEvent" [] HIGH;
           OpRegister "MyEvent" [] LOW]
    new_manager.

(** A handler that empties the registry while the emission it belongs
    to is under way. *)
Definition self_clearing : ScriptWorld :=
  mkWorld
    (run_ops [OpRegister "MyEvent"
                [Push "first"; CallUnregisterAll None;
                 CallRegister "MyEvent" [Push "late"] MONITOR] HIGH;
              OpRegister "MyEvent" [Push "second"] LOW]
       new_manager)
    my_event [].



(** A handler that throws between two others. *)
Definition throwing : ScriptWorld :=
  mkWorld
    (run_ops [OpRegister "MyEvent" [Push "first"] HIGH;
              OpRegister "MyEvent" [Push "second"; Throw "boom"] NORMAL;
              OpRegister "MyEvent" [Push "third"] LOW]
       new_manager)
    my_event [].

End Scenario.

(* ================================================================== *)
(** * Properties *)

(** ** The map *)

Module JsMapFacts.
Section Facts.
Variable V : Type.
Implicit Types (m : JsMap.t V) (k : string) (v : V).

Lemma get_set_eq m k v : JsMap.get k (JsMap.set k v m) = Some v.
Proof.
  induction m as [|[k' v'] m IH]; simpl.
  - now rewrite String.eqb_refl.
  - destruct (String.eqb k' k) eqn:E; simpl; rewrite E; auto.
Qed.

Lemma get_set_ne m k k' v :
  k' <> k -> JsMap.get k' (JsMap.set k v m) = JsMap.get k' m.
Proof.
  intros Hne. induction m as [|[k0 v0] m IH]; simpl.
  - destruct (String.eqb k k') eqn:E; auto.
    apply String.eqb_eq in E. congruence.
  - destruct (String.eqb k0 k) eqn:E; simpl.
    + apply String.eqb_eq in E. subst k0.
      destruct (String.eqb k k') eqn:E'; auto.
      apply String.eqb_eq in E'. congruence.
    + now rewrite IH.
Qed.

Lemma get_delete_eq m k : JsMap.get k (JsMap.delete k m) = None.
Proof.
  induction m as [|[k' v'] m IH]; simpl; auto.
  destruct (String.eqb k' k) eqn:E; simpl; auto. now rewrite E.
Qed.

Lemma get_delete_ne m k k' :
  k' <> k -> JsMap.get k' (JsMap.delete k m) = JsMap.get k' m.
Proof.
  intros Hne. induction m as [|[k0 v0] m IH]; simpl; auto.
  destruct (String.eqb k0 k) eqn:E; simpl.
  - apply String.eqb_eq in E. subst k0.
    destruct (String.eqb k k') eqn:E'; auto.
    apply String.eqb_eq in E'. congruence.
  - now rewrite IH.
Qed.

Lemma has_true m k : JsMap.has k m = true <-> exists v, JsMap.get k m = Some v.
Proof.
  unfold JsMap.has. destruct (JsMap.get k m).
  - split; eauto.
  - split; [discriminate | intros [v H]; discriminate].
Qed.

Lemma has_false m k : JsMap.has k m = false <-> JsMap.get k m = None.
Proof.
  unfold JsMap.has. destruct (JsMap.get k m); split; congruence.
Qed.

Lemma get_in m k v : JsMap.get k m = Some v -> In (k, v) m.
Proof.
  induction m as [|[k' v'] m IH]; simpl; [discriminate|].
  destruct (String.eqb k' k) eqn:E.
  - apply String.eqb_eq in E. intros [= ->]. subst. now left.
  - intros H. right. auto.
Qed.

Lemma in_get m k v :
  NoDup (JsMap.keys m) -> In (k, v) m -> JsMap.get k m = Some v.
Proof.
  induction m as [|[k' v'] m IH]; simpl; [easy|].
  intros Hnd Hin. inversion Hnd as [|? ? Hnot Hnd']; subst.
  destruct Hin as [[= -> ->]|Hin].
  - now rewrite String.eqb_refl.
  - destruct (String.eqb k' k) eqn:E; auto.
    apply String.eqb_eq in E. subst k'.
    exfalso. apply Hnot. apply (in_map fst) in Hin. exact Hin.
Qed.

Lemma keys_set_present m k v :
  JsMap.has k m = true -> JsMap.keys (JsMap.set k v m) = JsMap.keys m.
Proof.
  unfold JsMap.has, JsMap.keys.
  induction m as [|[k' v'] m IH]; simpl; [discriminate|].
  destruct (String.eqb k' k) eqn:E; simpl; auto.
  intros H. now rewrite IH.
Qed.

Lemma keys_set_absent m k v :
  JsMap.has k m = false ->
  JsMap.keys (JsMap.set k v m) = JsMap.keys m ++ [k].
Proof.
  unfold JsMap.has, JsMap.keys.
  induction m as [|[k' v'] m IH]; simpl; auto.
  destruct (String.eqb k' k) eqn:E; simpl; [discriminate|].
  intros H. now rewrite IH.
Qed.

Lemma not_in_keys m k : JsMap.get k m = None -> ~ In k (JsMap.keys m).
Proof.
  unfold JsMap.keys.
  induction m as [|[k' v'] m IH]; simpl; auto.
  destruct (String.eqb k' k) eqn:E; [discriminate|].
  intros H [->|Hin]; [now rewrite String.eqb_refl in E | now apply IH].
Qed.

Lemma keys_set_nodup m k v :
  NoDup (JsMap.keys m) -> NoDup (JsMap.keys (JsMap.set k v m)).
Proof.
  intros Hnd. destruct (JsMap.has k m) eqn:E.
  - now rewrite keys_set_present.
  - rewrite keys_set_absent by exact E.
    apply NoDup_app; [exact Hnd | repeat constructor; easy |].
    intros x Hx [<-|[]]. apply has_false in E.
    now apply not_in_keys in E.
Qed.

Lemma keys_delete_nodup m k :
  NoDup (JsMap.keys m) -> NoDup (JsMap.keys (JsMap.delete k m)).
Proof.
  unfold JsMap.keys, JsMap.delete.
  induction m as [|[k' v'] m IH]; simpl; auto.
  intros Hnd. inversion Hnd as [|? ? Hnot Hnd']; subst.
  destruct (String.eqb k' k); simpl; auto.
  constructor; auto.
  intros Hin. apply Hnot. apply in_map_iff in Hin.
  destruct Hin as [[k0 v0] [Hk Hin]]. apply filter_In in Hin.
  apply in_map_iff. exists (k0, v0). tauto.
Qed.

End Facts.
End JsMapFacts.

(** ** Priorities and the stable sort *)

Lemma priority_value_inj p q :
  priority_value p = priority_value q -> p = q.
Proof. destruct p, q; simpl; intros H; try reflexivity; discriminate. Qed.

Example tiers_ascend :
  map priority_value all_priorities = [0; 1; 2; 3; 4; 5]%Z.
Proof. reflexivity. Qed.

Lemma priority_eqb_eq p q : priority_eqb p q = true <-> p = q.
Proof.
  unfold priority_eqb. rewrite Z.eqb_eq. split.
  - apply priority_value_inj.
  - now intros ->.
Qed.

Lemma priority_eqb_refl p : priority_eqb p p = true.
Proof. now apply priority_eqb_eq. Qed.

Lemma priority_eqb_neq p q : priority_eqb p q = false <-> p <> q.
Proof.
  rewrite <- priority_eqb_eq. destruct (priority_eqb p q); split; congruence.
Qed.

Section SortFacts.
Variable Handler : Type.
Local Abbreviation Meta := (EventHandlerMetadata Handler).
Implicit Types (x y : Meta) (l : list Meta) (p q : EventPriority).

Lemma has_priority_own x : has_priority (priority x) x = true.
Proof. apply priority_eqb_refl. Qed.

Lemma has_priority_true p x : has_priority p x = true <-> priority x = p.
Proof. apply priority_eqb_eq. Qed.

Lemma priority_le_trans : Relations_1.Transitive (@priority_le Handler).
Proof. intros a b c. unfold priority_le. lia. Qed.

(** Insertion passes only over records of strictly smaller priority
    number, so within each tier the new record comes first. *)
Lemma filter_sort_insert q x l :
  filter (has_priority q) (sort_insert x l)
  = filter (has_priority q) (x :: l).
Proof.
  induction l as [|y l IH]; [reflexivity|].
  cbn [sort_insert]. unfold compare_priority.
  destruct (_ <=? 0)%Z eqn:E; [reflexivity|].
  apply Z.leb_gt in E.
  cbn [filter] in *. rewrite IH.
  destruct (has_priority q x) eqn:Hx, (has_priority q y) eqn:Hy;
    try reflexivity.
  apply has_priority_true in Hx, Hy. rewrite Hx, Hy in E. lia.
Qed.

(** Stability: each tier keeps the order it had in the input. *)
Lemma filter_sort q l :
  filter (has_priority q) (sort l) = filter (has_priority q) l.
Proof.
  induction l as [|x l IH]; [reflexivity|].
  cbn [sort fold_right]. fold (sort l).
  rewrite filter_sort_insert. cbn [filter]. now rewrite IH.
Qed.

Lemma sort_insert_local_sorted x l :
  Sorted (@priority_le Handler) l ->
  Sorted (@priority_le Handler) (sort_insert x l).
Proof.
  induction 1 as [|y l Hs IH Hhd]; cbn [sort_insert].
  - repeat constructor.
  - unfold compare_priority. destruct (_ <=? 0)%Z eqn:E.
    + apply Z.leb_le in E. constructor; [now constructor|].
      constructor. unfold priority_le. lia.
    + apply Z.leb_gt in E. constructor; [exact IH|].
      destruct Hhd as [|z l Hyz]; cbn [sort_insert].
      * constructor. unfold priority_le. lia.
      * unfold compare_priority. destruct (_ <=? 0)%Z;
          constructor; unfold priority_le in *; lia.
Qed.

Lemma sort_sorted l : StronglySorted (@priority_le Handler) (sort l).
Proof.
  apply Sorted_StronglySorted; [exact priority_le_trans|].
  induction l as [|x l IH]; [constructor|].
  cbn [sort fold_right]. now apply sort_insert_local_sorted.
Qed.

Lemma sort_insert_in x y l : In y (sort_insert x l) <-> y = x \/ In y l.
Proof.
  induction l as [|z l IH]; cbn [sort_insert].
  - simpl. intuition.
  - destruct (_ <=? 0)%Z; simpl in *; rewrite ?IH; intuition.
Qed.

Lemma sort_in y l : In y (sort l) <-> In y l.
Proof.
  induction l as [|x l IH]; [reflexivity|].
  cbn [sort fold_right]. fold (sort l).
  rewrite sort_insert_in, IH. simpl. intuition.
Qed.

Lemma sort_insert_length x l :
  List.length (sort_insert x l) = S (List.length l).
Proof.
  induction l as [|z l IH]; cbn [sort_insert]; [reflexivity|].
  destruct (_ <=? 0)%Z; simpl; auto.
Qed.

Lemma sort_length l : List.length (sort l) = List.length l.
Proof.
  induction l as [|x l IH]; [reflexivity|].
  cbn [sort fold_right]. fold (sort l).
  rewrite sort_insert_length. simpl. now rewrite IH.
Qed.

Lemma filter_tier_below p x l :
  Forall (priority_le x) l ->
  (priority_value p < priority_value (priority x))%Z ->
  filter (has_priority p) l = [].
Proof.
  intros Hall Hlt. induction Hall as [|y l Hy _ IH]; [reflexivity|].
  cbn [filter]. destruct (has_priority p y) eqn:E; [|exact IH].
  apply has_priority_true in E. unfold priority_le in Hy.
  rewrite E in Hy. lia.
Qed.

(** A list in non-decreasing priority order is its tiers, put end to
    end. *)
Lemma filter_cons_tier p x l :
  filter (has_priority p) (x :: l)
  = if priority_eqb (priority x) p
    then x :: filter (has_priority p) l
    else filter (has_priority p) l.
Proof. reflexivity. Qed.

Lemma sorted_by_tier l :
  StronglySorted (@priority_le Handler) l -> by_tier l = l.
Proof.
  induction 1 as [|x l Hs IH Hall]; [reflexivity|].
  unfold by_tier in *. cbn [flat_map all_priorities] in *.
  rewrite !filter_cons_tier.
  destruct (priority x) eqn:Hp;
    cbn [priority_eqb priority_value Z.eqb Pos.eqb];
    repeat (rewrite (@filter_tier_below _ x l Hall) in *
              by (rewrite Hp; simpl; lia));
    cbn [app] in *; now rewrite IH.
Qed.

Lemma by_tier_sort l : by_tier (sort l) = by_tier l.
Proof.
  unfold by_tier. apply flat_map_ext. intros p. apply filter_sort.
Qed.

(** The sorted array, read tier by tier. *)
Lemma sort_by_tier l : sort l = by_tier l.
Proof.
  rewrite <- by_tier_sort. symmetry. apply sorted_by_tier, sort_sorted.
Qed.

Lemma sort_idempotent l : sort (sort l) = sort l.
Proof.
  rewrite (sort_by_tier (sort l)), by_tier_sort.
  symmetry. apply sort_by_tier.
Qed.

Lemma sort_sorted_id l :
  StronglySorted (@priority_le Handler) l -> sort l = l.
Proof. intros H. rewrite sort_by_tier. now apply sorted_by_tier. Qed.


End SortFacts.

(** ** The registry operations, bucket by bucket *)

Section RegistryFacts.
Variable Handler : Type.
Local Abbreviation Meta := (EventHandlerMetadata Handler).
Local Abbreviation Manager := (EventManager Handler).
Implicit Types (m : Manager) (h : Handler) (p q : EventPriority).
Implicit Types (name : string) (l : list Meta).

Lemma bucket_get m name l :
  JsMap.get name (listeners m) = Some l -> bucket name m = l.
Proof. unfold bucket. now intros ->. Qed.

Lemma bucket_absent m name :
  JsMap.get name (listeners m) = None -> bucket name m = [].
Proof. unfold bucket. now intros ->. Qed.

Lemma register_id m name h p :
  fst (register name h p m)
  = String.append "handler_"
      (JsNumber.to_string (JsNumber.incr (handlerCounter m))).
Proof. reflexivity. Qed.

Lemma register_counter m name h p :
  handlerCounter (snd (register name h p m))
  = JsNumber.incr (handlerCounter m).
Proof. reflexivity. Qed.

(** [register] leaves in the bucket the old records and the new one,
    pushed last and sorted. *)
Lemma get_register_same m name h p :
  JsMap.get name (listeners (snd (register name h p m)))
  = Some (sort (bucket name m
                ++ [mkMeta h p (fst (register name h p m))])).
Proof.
  unfold register, bucket. cbn [snd fst listeners].
  rewrite JsMapFacts.get_set_eq.
  unfold JsMap.has. destruct (JsMap.get name (listeners m)) eqn:E.
  - cbn [negb]. now rewrite E.
  - cbn [negb]. now rewrite JsMapFacts.get_set_eq.
Qed.

Lemma bucket_register_same m name h p :
  bucket name (snd (register name h p m))
  = sort (bucket name m ++ [mkMeta h p (fst (register name h p m))]).
Proof. apply bucket_get, get_register_same. Qed.

Lemma get_register_other m name name' h p :
  name' <> name ->
  JsMap.get name' (listeners (snd (register name h p m)))
  = JsMap.get name' (listeners m).
Proof.
  intros Hne. unfold register. cbn [snd listeners].
  rewrite JsMapFacts.get_set_ne by exact Hne.
  destruct (negb _); [now rewrite JsMapFacts.get_set_ne|reflexivity].
Qed.




End RegistryFacts.

(** ** The dispatch loop *)

Section DispatchFacts.
Variables Handler Env Error : Type.
Variable call : Handler -> World Handler Env
                -> Completion Handler Env Error unit.
Local Abbreviation Meta := (EventHandlerMetadata Handler).
Implicit Types (hs pre post : list Meta) (w : World Handler Env).

(** The loop calls the handlers of its array from the front, skipping
    none. *)
Lemma emit_loop_prefix hs n d w :
  exists rest, hs = fst (emit_loop call hs n d w) ++ rest.
Proof.
  revert n d w. induction hs as [|h hs IH]; intros n d w.
  - now exists [].
  - cbn [emit_loop]. destruct (event_is_cancelled (event w)).
    + now exists (h :: hs).
    + destruct (call (handler h) w) as [[] w'|e w'].
      * destruct (IH (S n) (d ++ [mkDetail (priority h) (id h)]) w')
          as [rest Hrest].
        destruct (emit_loop call hs _ _ w') as [inv c].
        exists rest. cbn [fst] in *. now rewrite Hrest at 1.
      * now exists hs.
Qed.

(** Handlers that are dispatched are passed over by the loop one by one;
    the loop then goes on with the rest of the array. *)
Lemma emit_loop_dispatched pre post n d w w' :
  dispatched call pre w w' ->
  emit_loop call (pre ++ post) n d w
  = (pre ++ fst (emit_loop call post (n + List.length pre)
                   (d ++ map (@detail_of Handler) pre) w'),
     snd (emit_loop call post (n + List.length pre)
            (d ++ map (@detail_of Handler) pre) w')).
Proof.
  intros H. revert n d.
  induction H as [w|h hs w w1 w2 Hc Hcall Hd IH]; intros n d.
  - cbn [app List.length map]. rewrite Nat.add_0_r, app_nil_r.
    now destruct (emit_loop call post n d w).
  - cbn [app emit_loop]. rewrite Hc, Hcall.
    rewrite IH. cbn [List.length map].
    replace (S n + List.length hs) with (n + S (List.length hs)) by lia.
    unfold detail_of at 2 4. rewrite <- !app_assoc. reflexivity.
Qed.


Lemma dispatched_app pre post w w1 w2 :
  dispatched call pre w w1 -> dispatched call post w1 w2 ->
  dispatched call (pre ++ post) w w2.
Proof.
  induction 1; intros H2; [exact H2|].
  cbn [app]. econstructor; eauto.
Qed.

Lemma dispatched_app_inv pre post w w2 :
  dispatched call (pre ++ post) w w2 ->
  exists w1, dispatched call pre w w1 /\ dispatched call post w1 w2.
Proof.
  revert w. induction pre as [|h pre IH]; intros w H.
  - exists w. split; [constructor | exact H].
  - cbn [app] in H. inversion H as [|? ? ? w' ? Hc Hcall Hd]; subst.
    destruct (IH _ Hd) as [w1 [H1 H2]].
    exists w1. split; [econstructor; eauto | exact H2].
Qed.

End DispatchFacts.

Lemma StronglySorted_app_l (A : Type) (R : A -> A -> Prop) (l l' : list A) :
  StronglySorted R (l ++ l') -> StronglySorted R l.
Proof.
  induction l as [|x l IH]; [constructor|].
  cbn [app]. intros H. inversion H as [|? ? Hs Hall]; subst.
  constructor; [now apply IH|].
  apply Forall_app in Hall. tauto.
Qed.

(* ================================================================== *)
(** * Main theorems *)

Section EmitTheorems.
Variables Handler Env Error : Type.
Variable call : Handler -> World Handler Env
                -> Completion Handler Env Error unit.
Local Abbreviation Meta := (EventHandlerMetadata Handler).
Implicit Types (pre post : list Meta) (w : World Handler Env).


(** C2.  Let the snapshot of an emission be [pre ++ h :: post], let the
    handlers of [pre] and then [h] be dispatched (each finds the event
    not cancelled and returns), and let [h] leave the event cancelled with
    reason [reason].  Then [emit] returns a result: [h] is counted, so
    [handlerCount] is [length pre + 1] and [executedHandlers] lists [pre]
    and [h]; no handler of [post] is called; and the event of the result
    is cancelled with that reason.  The check comes before each call: an
    event that is already cancelled when [emit] starts has no handler
    called at all. *)
Theorem emit_stops_after_cancelling_handler :
  forall w w2 pre (h : Meta) post (c : CancellableEvent) (reason : string),
    emit_snapshot w = pre ++ h :: post ->
    dispatched call (pre ++ [h]) w w2 ->
    cancellation (event w2) = Some c ->
    isCancelled c = true ->
    getCancelReason c = reason ->
    (exists r,
        emit call w = Returned r w2
        /\ handlerCount r = List.length pre + 1
        /\ executedHandlers r = map (@detail_of Handler) (pre ++ [h])
        /\ emit_invoked call w = pre ++ [h]
        /\ option_map isCancelled (cancellation (result_event r))
           = Some true
        /\ option_map getCancelReason (cancellation (result_event r))
           = Some reason)
    /\ (forall w0,
           event_is_cancelled (event w0) = true ->
           emit_invoked call w0 = []
           /\ emit call w0 = Returned (mkResult (event w0) 0 []) w0).
Proof.
  intros w w2 pre h post c reason Hsnap Hd Hc Hcancelled Hreason. split.
  - assert (Hloop := emit_loop_dispatched post 0 [] Hd).
    assert (Hcut : event_is_cancelled (event w2) = true).
    { unfold event_is_cancelled. now rewrite Hc. }
    assert (Hrest : forall n d,
               emit_loop call post n d w2 = ([], Returned (n, d) w2)).
    { intros n d. destruct post; cbn [emit_loop]; [reflexivity|].
      now rewrite Hcut. }
    rewrite Hrest in Hloop. cbn [fst snd app] in Hloop.
    rewrite app_nil_r in Hloop.
    eexists. unfold emit, emit_invoked, emit_run.
    rewrite Hsnap.
    replace (pre ++ h :: post) with ((pre ++ [h]) ++ post)
      by (now rewrite <- app_assoc).
    rewrite Hloop. cbn [fst snd].
    split; [reflexivity|]. cbn [handlerCount executedHandlers result_event].
    rewrite Hc, length_app. cbn [List.length option_map].
    rewrite Hcancelled, Hreason. repeat split; reflexivity.
  - intros w0 Hw0. unfold emit, emit_invoked, emit_run.
    destruct (emit_snapshot w0) as [|h0 hs0]; cbn [emit_loop].
    + now split.
    + rewrite Hw0. now split.
Qed.


(** C6.  Let the snapshot be [pre ++ h :: post], let the handlers of
    [pre] be dispatched, and let [h], called on an event that is not
    cancelled, throw [e].  Then [emit] throws [e] and returns no
    [EventResult]; it called the handlers of [pre] and [h] and none of
    [post]; and the state it leaves is the state in which [h] threw, the
    one reached by running [pre] and then [h], so what the earlier
    handlers did is kept. *)
Theorem emit_fails_with_handler_error :
  forall w w1 w2 pre (h : Meta) post (e : Error),
    emit_snapshot w = pre ++ h :: post ->
    dispatched call pre w w1 ->
    event_is_cancelled (event w1) = false ->
    call (handler h) w1 = Threw e w2 ->
    emit call w = Threw e w2
    /\ (forall r w', emit call w <> Returned r w')
    /\ emit_invoked call w = pre ++ [h]
    /\ run_all call (pre ++ [h]) w = Threw e w2.
Proof.
  intros w w1 w2 pre h post e Hsnap Hd Hc Hthrow.
  assert (Hloop := emit_loop_dispatched (h :: post) 0 [] Hd).
  cbn [emit_loop] in Hloop. rewrite Hc, Hthrow in Hloop.
  cbn [fst snd] in Hloop.
  assert (Hemit : emit call w = Threw e w2).
  { unfold emit, emit_run. now rewrite Hsnap, Hloop. }
  split; [exact Hemit|]. split; [|split].
  - intros r w'. rewrite Hemit. discriminate.
  - unfold emit_invoked, emit_run. now rewrite Hsnap, Hloop.
  - clear Hloop Hemit Hsnap.
    induction Hd as [w|h0 hs w wa wb Hc0 Hcall Hd IH].
    + cbn [app run_all]. now rewrite Hthrow.
    + cbn [app run_all]. rewrite Hcall. now apply IH.
Qed.

(** X5.  A failed emission always arises that way: when [emit] throws,
    some handler [h] of the snapshot, reached after the handlers before
    it were dispatched, threw that very error, and the state [emit]
    leaves is the state in which [h] threw. *)
Lemma emit_threw_inv w e w2 :
  emit call w = Threw e w2 ->
  exists pre (h : Meta) post w1,
    emit_snapshot w = pre ++ h :: post
    /\ dispatched call pre w w1
    /\ event_is_cancelled (event w1) = false
    /\ call (handler h) w1 = Threw e w2.
Proof.
  unfold emit, emit_run.
  generalize (emit_snapshot w) as hs, 0 as n, (@nil ExecutionDetail) as d.
  intros hs. revert w.
  induction hs as [|h hs IH]; intros w n d; cbn [emit_loop snd].
  - discriminate.
  - destruct (event_is_cancelled (event w)) eqn:Hc; [discriminate|].
    destruct (call (handler h) w) as [[] w'|e' w'] eqn:Hcall.
    + specialize (IH w' (S n) (d ++ [mkDetail (priority h) (id h)])).
      destruct (emit_loop call hs _ _ w') as [inv c]. cbn [snd] in *.
      intros H. destruct (IH H) as (pre & h' & post & w1 & -> & Hd & H1 & H2).
      exists (h :: pre), h', post, w1.
      repeat split; auto. econstructor; eauto.
    + cbn [snd]. intros [= -> ->].
      exists [], h, hs, w. repeat split; auto. constructor.
Qed.

End EmitTheorems.

(** Witness of C2: the cancelling scenario of the test suite. *)
Lemma emit_stops_after_cancelling_handler_witness :
  exists r,
    emit_script Scenario.cancelling
    = Returned r
        (mkWorld (manager Scenario.cancelling)
           (mkEvent "MyCancellableEvent"
              (Some (mkCancellable true "stop-now")))
           ["first"])
    /\ handlerCount r = 1
    /\ executedHandlers r = [mkDetail NORMAL "handler_1"]
    /\ emit_invoked run_script Scenario.cancelling
       = [mkMeta [Push "first"; Cancel (Some "stop-now")] NORMAL "handler_1"]
    /\ option_map isCancelled (cancellation (result_event r)) = Some true
    /\ option_map getCancelReason (cancellation (result_event r))
       = Some "stop-now".
Proof.
  refine (proj1 (@emit_stops_after_cancelling_handler _ _ _ run_script
    Scenario.cancelling _ []
    (mkMeta [Push "first"; Cancel (Some "stop-now")] NORMAL "handler_1")
    [mkMeta [Push "second-should-not-run"] LOW "handler_2"]
    (mkCancellable true "stop-now") "stop-now" _ _ _ _ _)).
  - reflexivity.
  - eapply dispatched_cons; [reflexivity | reflexivity | apply dispatched_nil].
  - reflexivity.
  - reflexivity.
  - reflexivity.
Defined.

(** Witness of C6: the throwing scenario. *)
Lemma emit_fails_with_handler_error_witness :
  emit_script Scenario.throwing
  = Threw "boom"
      (mkWorld (manager Scenario.throwing) Scenario.my_event
         ["first"; "second"])
  /\ (forall r w', emit_script Scenario.throwing <> Returned r w')
  /\ emit_invoked run_script Scenario.throwing
     = [mkMeta [Push "first"] HIGH "handler_1";
        mkMeta [Push "second"; Throw "boom"] NORMAL "handler_2"]
  /\ run_all run_script
       [mkMeta [Push "first"] HIGH "handler_1";
        mkMeta [Push "second"; Throw "boom"] NORMAL "handler_2"]
       Scenario.throwing
     = Threw "boom"
         (mkWorld (manager Scenario.throwing) Scenario.my_event
            ["first"; "second"]).
Proof.
  refine (@emit_fails_with_handler_error _ _ _ run_script
    Scenario.throwing
    (mkWorld (manager Scenario.throwing) Scenario.my_event ["first"])
    _ [mkMeta [Push "first"] HIGH "handler_1"]
    (mkMeta [Push "second"; Throw "boom"] NORMAL "handler_2")
    [mkMeta [Push "third"] LOW "handler_3"] "boom" _ _ _ _).
  - reflexivity.
  - eapply dispatched_cons; [reflexivity | reflexivity | apply dispatched_nil].
  - reflexivity.
  - reflexivity.
Defined.

(** ** The test suite, replayed *)

Example test_priority_order :
  emit_script Scenario.priority_order
  = Returned
      (mkResult Scenario.my_event 3
         [mkDetail MONITOR "handler_3"; mkDetail HIGH "handler_2";
          mkDetail LOWEST "handler_1"])
      (mkWorld (manager Scenario.priority_order) Scenario.my_event
         ["monitor"; "high"; "low"]).
Proof. reflexivity. Qed.

Example ties_run_in_registration_order :
  env (world_of (emit_script Scenario.ties))
  = ["high-1"; "high-2"; "normal-1"; "normal-2"]
  /\ map (@id Script) (emit_invoked run_script Scenario.ties)
     = ["handler_2"; "handler_4"; "handler_1"; "handler_3"].
Proof. split; reflexivity. Qed.

Example test_unregister_by_id :
  env (world_of (emit_script Scenario.unregistering)) = ["second"]
  /\ getHandlerCount "MyEvent" (manager Scenario.unregistering) = 1
  /\ hasHandlers "MyEvent" (manager Scenario.unregistering) = true.
Proof. repeat split. Qed.

Example test_unregister_all_one_type :
  getHandlerCount "MyEvent" Scenario.two_types = 1
  /\ getHandlerCount "AnotherEvent" Scenario.two_types = 1
  /\ getHandlerCount "MyEvent"
       (unregisterAll (Some "MyEvent") Scenario.two_types) = 0
  /\ getHandlerCount "AnotherEvent"
       (unregisterAll (Some "MyEvent") Scenario.two_types) = 1.
Proof. repeat split. Qed.

Example test_unregister_by_priority :
  getHandlerCount "MyEvent" Scenario.three_handlers = 3
  /\ getHandlerIds "MyEvent"
       (unregisterByPriority "MyEvent" HIGH Scenario.three_handlers)
     = ["handler_3"].
Proof. repeat split. Qed.

(** A handler that clears the registry and registers a new handler does
    not change the emission it runs in: the second handler of the snapshot
    is still called, the newly registered one is not. *)
Example test_mutation_during_emit :
  emit_invoked run_script Scenario.self_clearing
  = emit_snapshot Scenario.self_clearing
  /\ env (world_of (emit_script Scenario.self_clearing)) = ["first"; "second"]
  /\ getHandlerIds "MyEvent"
       (manager (world_of (emit_script Scenario.self_clearing)))
     = ["handler_3"].
Proof. repeat split. Qed.

(** ** Cancellation *)

(** C10.  A second [cancel] keeps the event cancelled and replaces the
    stored reason, whatever it was: after [cancel(r1); cancel(r2)] the
    reason read back is [r2], and after [cancel(r1); cancel()] it is the
    empty string. *)
Theorem cancel_overwrites_reason :
  forall (e : CancellableEvent) (r1 : option string) (r2 : string),
    isCancelled (cancel (Some r2) (cancel r1 e)) = true
    /\ getCancelReason (cancel (Some r2) (cancel r1 e)) = r2
    /\ isCancelled (cancel None (cancel r1 e)) = true
    /\ getCancelReason (cancel None (cancel r1 e)) = "".
Proof. intros e r1 r2. repeat split. Qed.

Example cancel_erases_reason :
  getCancelReason (cancel (Some "stop-now") new_cancellable) = "stop-now"
  /\ cancel None (cancel (Some "stop-now") new_cancellable)
     = mkCancellable true "".
Proof. split; reflexivity. Qed.

(** ** Removal by priority and by type *)

Section RemovalTheorems.
Variable Handler : Type.
Local Abbreviation Meta := (EventHandlerMetadata Handler).
Local Abbreviation Manager := (EventManager Handler).
Implicit Types (m : Manager) (p q : EventPriority) (name : string).

Lemma hasHandlers_bucket m name :
  hasHandlers name m = Nat.ltb 0 (List.length (bucket name m)).
Proof.
  unfold hasHandlers, bucket, JsMap.has.
  destruct (JsMap.get name (listeners m)); reflexivity.
Qed.

Lemma getHandlerCount_bucket m name :
  getHandlerCount name m = List.length (bucket name m).
Proof.
  unfold getHandlerCount, bucket.
  destruct (JsMap.get name (listeners m)); reflexivity.
Qed.

Lemma getHandlerIds_bucket m name :
  getHandlerIds name m = map (@id Handler) (bucket name m).
Proof.
  unfold getHandlerIds, bucket.
  destruct (JsMap.get name (listeners m)); reflexivity.
Qed.

Lemma filter_other_tier p q (l : list Meta) :
  q <> p ->
  filter (has_priority q) (filter (fun h => negb (has_priority p h)) l)
  = filter (has_priority q) l.
Proof.
  intros Hq. induction l as [|x l IH]; [reflexivity|].
  cbn [filter]. destruct (has_priority p x) eqn:Hx; cbn [negb filter].
  - destruct (has_priority q x) eqn:Hqx; [|exact IH].
    apply has_priority_true in Hx, Hqx. congruence.
  - now rewrite IH.
Qed.

(** C7.  [unregisterByPriority(eventType, p)] leaves in the type's bucket
    the records whose priority is not [p], in the order they had: a
    record is in the new bucket exactly when it was in the old one at
    another priority, and [getHandlerIds] returns the ids of these
    survivors.  When none survives the type has no entry any more.
    Buckets of other types and the counter are untouched, and on a type
    without entry the call changes nothing. *)
Theorem unregisterByPriority_removes_one_tier :
  forall m name p,
    let m' := unregisterByPriority name p m in
    let survivors :=
      filter (fun h => negb (has_priority p h)) (bucket name m) in
    bucket name m' = survivors
    /\ (forall h, In h (bucket name m')
                  <-> In h (bucket name m) /\ priority h <> p)
    /\ (forall q, q <> p ->
                  filter (has_priority q) (bucket name m')
                  = filter (has_priority q) (bucket name m))
    /\ getHandlerIds name m' = map (@id Handler) survivors
    /\ (survivors = [] -> JsMap.has name (listeners m') = false)
    /\ (survivors <> [] ->
        JsMap.get name (listeners m') = Some survivors)
    /\ (forall name', name' <> name ->
          JsMap.get name' (listeners m') = JsMap.get name' (listeners m))
    /\ handlerCounter m' = handlerCounter m
    /\ (JsMap.has name (listeners m) = false -> m' = m).
Proof.
  intros m name p m' survivors.
  assert (Hget : JsMap.get name (listeners m')
                 = match survivors with [] => None | _ => Some survivors end).
  { unfold m', survivors, unregisterByPriority, bucket, has_priority.
    destruct (JsMap.get name (listeners m)) as [handlers|] eqn:E.
    - cbn [listeners].
      destruct (filter _ handlers) as [|x l] eqn:F; cbn [List.length Nat.eqb].
      + apply JsMapFacts.get_delete_eq.
      + apply JsMapFacts.get_set_eq.
    - cbn [filter]. exact E. }
  assert (Hb : bucket name m' = survivors).
  { unfold bucket. rewrite Hget. now destruct survivors. }
  split; [exact Hb|]. split; [|split; [|split; [|split; [|split;
    [|split; [|split]]]]]].
  - intros h. rewrite Hb. unfold survivors. rewrite filter_In.
    rewrite negb_true_iff. unfold has_priority.
    rewrite priority_eqb_neq. reflexivity.
  - intros q Hq. rewrite Hb. now apply filter_other_tier.
  - now rewrite getHandlerIds_bucket, Hb.
  - intros Hs. apply JsMapFacts.has_false. now rewrite Hget, Hs.
  - intros Hs. rewrite Hget. now destruct survivors.
  - intros name' Hne. unfold m', unregisterByPriority.
    destruct (JsMap.get name (listeners m)) as [handlers|]; [|reflexivity].
    cbn [listeners]. destruct (Nat.eqb _ 0).
    + now apply JsMapFacts.get_delete_ne.
    + now apply JsMapFacts.get_set_ne.
  - unfold m', unregisterByPriority.
    now destruct (JsMap.get name (listeners m)).
  - intros Hno. apply JsMapFacts.has_false in Hno.
    unfold m', unregisterByPriority. now rewrite Hno.
Qed.

(** C8.  For two event types with different names, [unregisterAll(A)]
    leaves the bucket of [B] as it was (same records, same order, same
    count, same ids) and leaves [A] without entry, so its count is 0 and
    [hasHandlers] answers false. *)
Theorem unregisterAll_touches_one_type :
  forall m (A B : string),
    A <> B ->
    let m' := unregisterAll (Some A) m in
    JsMap.get B (listeners m') = JsMap.get B (listeners m)
    /\ bucket B m' = bucket B m
    /\ getHandlerCount B m' = getHandlerCount B m
    /\ getHandlerIds B m' = getHandlerIds B m
    /\ hasHandlers B m' = hasHandlers B m
    /\ JsMap.has A (listeners m') = false
    /\ bucket A m' = []
    /\ getHandlerCount A m' = 0
    /\ hasHandlers A m' = false.
Proof.
  intros m A B Hne m'.
  assert (HB : JsMap.get B (listeners m') = JsMap.get B (listeners m)).
  { unfold m', unregisterAll. cbn [listeners].
    apply JsMapFacts.get_delete_ne. congruence. }
  assert (HA : JsMap.get A (listeners m') = None).
  { unfold m', unregisterAll. cbn [listeners].
    apply JsMapFacts.get_delete_eq. }
  assert (HbB : bucket B m' = bucket B m) by (unfold bucket; now rewrite HB).
  assert (HbA : bucket A m' = []) by (now apply bucket_absent).
  rewrite !hasHandlers_bucket, !getHandlerCount_bucket,
    !getHandlerIds_bucket, HbB, HbA.
  repeat split; auto. now apply JsMapFacts.has_false.
Qed.

End RemovalTheorems.

(** Witness of C8: the two event types of the test suite. *)
Lemma unregisterAll_touches_one_type_witness :
  let m' := unregisterAll (Some "MyEvent") Scenario.two_types in
  JsMap.get "AnotherEvent" (listeners m')
  = JsMap.get "AnotherEvent" (listeners Scenario.two_types)
  /\ bucket "AnotherEvent" m' = bucket "AnotherEvent" Scenario.two_types
  /\ getHandlerCount "AnotherEvent" m'
     = getHandlerCount "AnotherEvent" Scenario.two_types
  /\ getHandlerIds "AnotherEvent" m'
     = getHandlerIds "AnotherEvent" Scenario.two_types
  /\ hasHandlers "AnotherEvent" m'
     = hasHandlers "AnotherEvent" Scenario.two_types
  /\ JsMap.has "MyEvent" (listeners m') = false
  /\ bucket "MyEvent" m' = []
  /\ getHandlerCount "MyEvent" m' = 0
  /\ hasHandlers "MyEvent" m' = false.
Proof.
  apply (@unregisterAll_touches_one_type Script Scenario.two_types
           "MyEvent" "AnotherEvent").
  discriminate.
Defined.

(** ** Ids: rendering and counting *)

Lemma to_string_inj (a b : N) :
  JsNumber.to_string a = JsNumber.to_string b -> a = b.
Proof.
  unfold JsNumber.to_string. intros H.
  assert (Hnn : forall n, N.to_uint n <> Decimal.Nil).
  { intros [|q]; [discriminate | apply DecimalPos.Unsigned.to_uint_nonnil]. }
  apply DecimalN.Unsigned.to_uint_inj.
  assert (Ha := NilZero.usu _ (Hnn a)).
  assert (Hb := NilZero.usu _ (Hnn b)).
  rewrite H in Ha. congruence.
Qed.

Lemma nth_id_inj (a b : nat) : nth_id a = nth_id b -> a = b.
Proof.
  unfold nth_id. cbn [String.append]. intros H.
  injection H as H. apply to_string_inj in H. now apply Nat2N.inj.
Qed.

Abbreviation occ x l := (count_occ string_dec l x).

Section IdFacts.
Variable Handler : Type.
Local Abbreviation Meta := (EventHandlerMetadata Handler).
Local Abbreviation Table := (JsMap.t (list Meta)).
Implicit Types (ls : Table) (l : list Meta) (x k : string).

Lemma findIndex_Some pred l i :
  findIndex pred l = Some i ->
  exists pre h post,
    l = pre ++ h :: post /\ pred h = true
    /\ (forall y, In y pre -> pred y = false)
    /\ splice1 i l = pre ++ post.
Proof.
  revert i. induction l as [|y l IH]; intros i; cbn [findIndex].
  - discriminate.
  - destruct (pred y) eqn:Hy.
    + intros [= <-]. exists [], y, l. repeat split; auto. intros ? [].
    + destruct (findIndex pred l) as [j|]; [|discriminate].
      intros [= <-]. destruct (IH j eq_refl) as (pre & h & post & -> & Hh & Hpre & Hs).
      exists (y :: pre), h, post. cbn [app splice1]. rewrite Hs.
      repeat split; auto. intros z [<-|Hz]; auto.
Qed.

Lemma findIndex_None pred l :
  findIndex pred l = None -> forall y, In y l -> pred y = false.
Proof.
  induction l as [|z l IH]; cbn [findIndex]; [intros _ ? []|].
  destruct (pred z) eqn:Hz; [discriminate|].
  destruct (findIndex pred l); [discriminate|].
  intros _ y [<-|Hy]; auto.
Qed.

Lemma findIndex_id_None x l :
  findIndex (fun h => String.eqb (id h) x) l = None
  <-> ~ In x (map (@id Handler) l).
Proof.
  split.
  - intros H Hin. apply in_map_iff in Hin. destruct Hin as [y [<- Hy]].
    apply (findIndex_None _ _ H) in Hy. now rewrite String.eqb_refl in Hy.
  - intros Hnot.
    destruct (findIndex _ l) as [i|] eqn:E; [|reflexivity].
    apply findIndex_Some in E. destruct E as (pre & h & post & -> & Hh & _).
    apply String.eqb_eq in Hh. exfalso. apply Hnot. rewrite <- Hh.
    apply in_map, in_elt.
Qed.

(** What the loop of [unregister] does when it finds the id. *)
Lemma unregister_loop_true x entries ls ls' :
  unregister_loop x entries ls = (true, ls') ->
  exists name handlers i,
    In (name, handlers) entries
    /\ findIndex (fun h => String.eqb (id h) x) handlers = Some i
    /\ ls' = if Nat.eqb (List.length (splice1 i handlers)) 0
             then JsMap.delete name ls
             else JsMap.set name (splice1 i handlers) ls.
Proof.
  induction entries as [|[name handlers] entries IH]; cbn [unregister_loop].
  - discriminate.
  - destruct (findIndex _ handlers) as [i|] eqn:E.
    + intros [= <-]. exists name, handlers, i. split; [now left|]. auto.
    + intros H. destruct (IH H) as (n & hs & i & Hin & Hf & Hls).
      exists n, hs, i. split; [now right|]. auto.
Qed.

(** ... and when it does not. *)
Lemma unregister_loop_false x entries ls ls' :
  unregister_loop x entries ls = (false, ls') ->
  ls' = ls /\ ~ In x (table_ids entries).
Proof.
  induction entries as [|[name handlers] entries IH]; cbn [unregister_loop].
  - intros [= <-]. split; [reflexivity | intros []].
  - destruct (findIndex _ handlers) as [i|] eqn:E; [discriminate|].
    intros H. destruct (IH H) as [-> Hnot]. split; [reflexivity|].
    unfold table_ids in *. cbn [flat_map snd]. rewrite in_app_iff.
    apply findIndex_id_None in E. tauto.
Qed.

Lemma unregister_loop_found x entries ls :
  fst (unregister_loop x entries ls) = true <-> In x (table_ids entries).
Proof.
  destruct (unregister_loop x entries ls) as [[|] ls'] eqn:E; cbn [fst].
  - split; [intros _|reflexivity].
    apply unregister_loop_true in E.
    destruct E as (name & handlers & i & Hin & Hf & _).
    unfold table_ids. apply in_flat_map. exists (name, handlers).
    split; [exact Hin|]. cbn [snd].
    destruct (in_dec string_dec x (map (@id Handler) handlers)) as [H|H];
      [exact H|].
    apply findIndex_id_None in H. congruence.
  - apply unregister_loop_false in E. destruct E as [_ Hnot].
    split; [discriminate | contradiction].
Qed.

(** Counting an id over the table. *)
Lemma occ_set ls k (v : list Meta) x :
  occ x (table_ids (JsMap.set k v ls))
  + occ x (map (@id Handler)
             match JsMap.get k ls with Some b => b | None => [] end)
  = occ x (table_ids ls) + occ x (map (@id Handler) v).
Proof.
  unfold table_ids.
  induction ls as [|[k' v'] ls IH]; cbn [JsMap.set JsMap.get flat_map snd].
  - rewrite count_occ_app. simpl. lia.
  - destruct (String.eqb k' k); cbn [flat_map snd];
      rewrite !count_occ_app; lia.
Qed.

Lemma occ_filter_table (f : string * list Meta -> bool) ls x :
  occ x (table_ids (filter f ls)) <= occ x (table_ids ls).
Proof.
  unfold table_ids. induction ls as [|e ls IH]; [reflexivity|].
  cbn [filter flat_map]. destruct (f e); cbn [flat_map];
    rewrite ?count_occ_app; lia.
Qed.

Lemma occ_delete ls k x :
  occ x (table_ids (JsMap.delete k ls))
  + occ x (map (@id Handler)
             match JsMap.get k ls with Some b => b | None => [] end)
  <= occ x (table_ids ls).
Proof.
  unfold JsMap.delete, table_ids.
  induction ls as [|[k' v'] ls IH]; cbn [filter JsMap.get flat_map snd fst].
  - simpl. lia.
  - destruct (String.eqb k' k); cbn [negb flat_map snd];
      rewrite ?count_occ_app.
    + pose proof (occ_filter_table
        (fun e => negb (String.eqb (fst e) k)) ls x) as H.
      unfold table_ids in H. lia.
    + lia.
Qed.

Lemma occ_sort_insert (y : Meta) l x :
  occ x (map (@id Handler) (sort_insert y l))
  = occ x (map (@id Handler) (y :: l)).
Proof.
  induction l as [|z l IH]; cbn [sort_insert]; [reflexivity|].
  destruct (_ <=? 0)%Z; [reflexivity|].
  cbn [map count_occ] in *. rewrite IH.
  destruct (string_dec (id z) x), (string_dec (id y) x); lia.
Qed.

Lemma occ_sort l x :
  occ x (map (@id Handler) (sort l)) = occ x (map (@id Handler) l).
Proof.
  induction l as [|y l IH]; [reflexivity|].
  cbn [sort fold_right]. fold (sort l). rewrite occ_sort_insert.
  cbn [map count_occ]. now rewrite IH.
Qed.

Lemma occ_filter_bucket (f : Meta -> bool) l x :
  occ x (map (@id Handler) (filter f l)) <= occ x (map (@id Handler) l).
Proof.
  induction l as [|y l IH]; [reflexivity|].
  cbn [filter map count_occ].
  destruct (f y); cbn [map count_occ]; destruct (string_dec (id y) x); lia.
Qed.

Lemma set_set ls k (v v' : list Meta) :
  JsMap.set k v' (JsMap.set k v ls) = JsMap.set k v' ls.
Proof.
  induction ls as [|[k0 v0] ls IH]; cbn [JsMap.set].
  - now rewrite String.eqb_refl.
  - destruct (String.eqb k0 k) eqn:E; cbn [JsMap.set]; rewrite E; congruence.
Qed.

Lemma in_set ls k (v : list Meta) e :
  In e (JsMap.set k v ls) -> e = (k, v) \/ In e ls.
Proof.
  induction ls as [|[k0 v0] ls IH]; cbn [JsMap.set].
  - intros [<-|[]]. now left.
  - destruct (String.eqb k0 k) eqn:E.
    + apply String.eqb_eq in E. subst k0.
      intros [<-|H]; [now left | right; now right].
    + intros [<-|H]; [right; now left|].
      destruct (IH H); [now left | right; now right].
Qed.

Lemma in_delete ls k e : In e (JsMap.delete k ls) -> In e ls.
Proof. unfold JsMap.delete. intros H. now apply filter_In in H. Qed.

End IdFacts.

(** ** What each operation does to the keys and to the ids *)

Section OpFacts.
Variable Handler : Type.
Local Abbreviation Meta := (EventHandlerMetadata Handler).
Local Abbreviation Manager := (EventManager Handler).
Implicit Types (m : Manager) (h : Handler) (p : EventPriority).
Implicit Types (name x : string).

Lemma occ_register m name h p x :
  occ x (all_ids (snd (register name h p m)))
  = occ x (all_ids m)
    + (if string_dec (fst (register name h p m)) x then 1 else 0).
Proof.
  unfold register, all_ids. cbn [fst snd listeners].
  remember (String.append "handler_" _) as newid eqn:Hid. clear Hid.
  pose proof (occ_set (listeners m) name
                (sort ([] ++ [mkMeta h p newid])) x) as Habs.
  pose proof (fun b => occ_set (listeners m) name
                (sort (b ++ [mkMeta h p newid])) x) as Hpres.
  unfold JsMap.has.
  destruct (JsMap.get name (listeners m)) as [b|] eqn:E; cbn [negb].
  - rewrite E. specialize (Hpres b).
    rewrite occ_sort, map_app, count_occ_app in Hpres.
    cbn [map id] in Hpres.
    destruct (string_dec newid x) as [Heq|Hne];
      [rewrite (count_occ_cons_eq _ _ Heq) in Hpres
      |rewrite (count_occ_cons_neq _ _ Hne) in Hpres];
      cbn [count_occ] in Hpres; lia.
  - rewrite JsMapFacts.get_set_eq, set_set.
    rewrite occ_sort in Habs. cbn [app map id] in Habs. cbn [app].
    destruct (string_dec newid x) as [Heq|Hne];
      [rewrite (count_occ_cons_eq _ _ Heq) in Habs
      |rewrite (count_occ_cons_neq _ _ Hne) in Habs];
      cbn [count_occ] in Habs; lia.
Qed.

Lemma keys_register m name h p :
  NoDup (JsMap.keys (listeners m)) ->
  NoDup (JsMap.keys (listeners (snd (register name h p m)))).
Proof.
  intros H. unfold register. cbn [snd listeners].
  apply JsMapFacts.keys_set_nodup.
  destruct (negb _); [now apply JsMapFacts.keys_set_nodup | exact H].
Qed.

(** The shape of a successful [unregister]. *)
Lemma unregister_true m x m' :
  NoDup (JsMap.keys (listeners m)) ->
  unregister x m = (true, m') ->
  exists name pre (h : Meta) post,
    JsMap.get name (listeners m) = Some (pre ++ h :: post)
    /\ id h = x
    /\ ~ In x (map (@id Handler) pre)
    /\ handlerCounter m' = handlerCounter m
    /\ listeners m'
       = if Nat.eqb (List.length (pre ++ post)) 0
         then JsMap.delete name (listeners m)
         else JsMap.set name (pre ++ post) (listeners m).
Proof.
  intros Hk. unfold unregister, JsMap.entries.
  destruct (unregister_loop x (listeners m) (listeners m)) as [[|] ls'] eqn:E;
    [|discriminate].
  intros [= <-]. cbn [listeners handlerCounter].
  apply unregister_loop_true in E.
  destruct E as (name & handlers & i & Hin & Hf & ->).
  apply JsMapFacts.in_get in Hin; [|exact Hk].
  apply findIndex_Some in Hf.
  destruct Hf as (pre & h & post & -> & Hh & Hpre & ->).
  exists name, pre, h, post. apply String.eqb_eq in Hh.
  repeat split; auto.
  intros Hx. apply in_map_iff in Hx. destruct Hx as [y [Hy Hiny]].
  apply Hpre in Hiny. rewrite Hy, String.eqb_refl in Hiny. discriminate.
Qed.

Lemma unregister_false m x m' :
  unregister x m = (false, m') -> m' = m /\ ~ In x (all_ids m).
Proof.
  unfold unregister, JsMap.entries, all_ids.
  destruct (unregister_loop x (listeners m) (listeners m)) as [[|] ls'] eqn:E;
    [discriminate|].
  intros [= <-]. apply unregister_loop_false in E. destruct E as [-> Hnot].
  split; [now destruct m | exact Hnot].
Qed.

Lemma unregister_found m x :
  fst (unregister x m) = true <-> In x (all_ids m).
Proof.
  unfold unregister, JsMap.entries, all_ids.
  rewrite <- (unregister_loop_found x (listeners m) (listeners m)).
  now destruct (unregister_loop x (listeners m) (listeners m)).
Qed.

Lemma occ_unregister m x y :
  NoDup (JsMap.keys (listeners m)) ->
  occ y (all_ids (snd (unregister x m)))
  + (if fst (unregister x m)
     then if string_dec x y then 1 else 0
     else 0)
  <= occ y (all_ids m).
Proof.
  intros Hk. destruct (unregister x m) as [[|] m'] eqn:E; cbn [fst snd].
  - destruct (@unregister_true m x m' Hk E)
      as (name & pre & h & post & Hget & Hid & _ & _ & Hls).
    unfold all_ids. rewrite Hls.
    pose proof (occ_set (listeners m) name (pre ++ post) y) as Hs.
    pose proof (occ_delete (listeners m) name y) as Hd.
    rewrite Hget in Hs, Hd.
    rewrite !map_app, !count_occ_app in *. cbn [map count_occ] in *.
    rewrite Hid in *.
    destruct (Nat.eqb _ 0); destruct (string_dec x y); lia.
  - apply unregister_false in E. destruct E as [-> _]. lia.
Qed.

Lemma keys_unregister m x :
  NoDup (JsMap.keys (listeners m)) ->
  NoDup (JsMap.keys (listeners (snd (unregister x m)))).
Proof.
  intros Hk. destruct (unregister x m) as [[|] m'] eqn:E; cbn [snd].
  - destruct (@unregister_true m x m' Hk E) as (name & pre & h & post & _ & _ & _ & _ & ->).
    destruct (Nat.eqb _ 0).
    + now apply JsMapFacts.keys_delete_nodup.
    + now apply JsMapFacts.keys_set_nodup.
  - apply unregister_false in E. now destruct E as [-> _].
Qed.

Lemma occ_unregisterAll m (target : option string) y :
  occ y (all_ids (unregisterAll target m)) <= occ y (all_ids m).
Proof.
  unfold all_ids. destruct target as [name|]; cbn [unregisterAll listeners].
  - pose proof (occ_delete (listeners m) name y). lia.
  - cbn. lia.
Qed.

Lemma keys_unregisterAll m (target : option string) :
  NoDup (JsMap.keys (listeners m)) ->
  NoDup (JsMap.keys (listeners (unregisterAll target m))).
Proof.
  intros Hk. destruct target as [name|]; cbn [unregisterAll listeners].
  - now apply JsMapFacts.keys_delete_nodup.
  - constructor.
Qed.

Lemma occ_unregisterByPriority m name p y :
  occ y (all_ids (unregisterByPriority name p m)) <= occ y (all_ids m).
Proof.
  unfold all_ids, unregisterByPriority.
  destruct (JsMap.get name (listeners m)) as [b|] eqn:E; [|lia].
  cbn [listeners].
  pose proof (occ_set (listeners m) name
    (filter (fun r : Meta => negb (priority_eqb (priority r) p)) b) y) as Hs.
  pose proof (occ_delete (listeners m) name y) as Hd.
  pose proof (occ_filter_bucket
    (fun r : Meta => negb (priority_eqb (priority r) p)) b y) as Hf.
  rewrite E in Hs, Hd. destruct (Nat.eqb _ 0); lia.
Qed.

Lemma keys_unregisterByPriority m name p :
  NoDup (JsMap.keys (listeners m)) ->
  NoDup (JsMap.keys (listeners (unregisterByPriority name p m))).
Proof.
  intros Hk. unfold unregisterByPriority.
  destruct (JsMap.get name (listeners m)); [|exact Hk].
  cbn [listeners]. destruct (Nat.eqb _ 0).
  - now apply JsMapFacts.keys_delete_nodup.
  - now apply JsMapFacts.keys_set_nodup.
Qed.

Lemma keys_run_ops (ops : list (Op Handler)) m :
  NoDup (JsMap.keys (listeners m)) ->
  NoDup (JsMap.keys (listeners (run_ops ops m))).
Proof.
  revert m. induction ops as [|o ops IH]; intros m Hk; [exact Hk|].
  cbn [run_ops]. apply IH. destruct o; cbn [apply_op].
  - now apply keys_register.
  - now apply keys_unregister.
  - now apply keys_unregisterAll.
  - now apply keys_unregisterByPriority.
Qed.

Lemma NoDup_occ (l : list string) :
  NoDup l <-> forall y, occ y l <= 1.
Proof. apply NoDup_count_occ. Qed.

Lemma In_occ (l : list string) y : In y l <-> occ y l > 0.
Proof. apply count_occ_In. Qed.

End OpFacts.

(** ** Removal by id *)

Section UnregisterTheorem.
Variable Handler : Type.
Local Abbreviation Meta := (EventHandlerMetadata Handler).
Local Abbreviation Manager := (EventManager Handler).
Implicit Types (m : Manager) (name x : string).

(** C4.  On a table whose keys and whose ids are pairwise distinct,
    [unregister(id)] returns true exactly when some record carries the
    id.  When it returns true, one bucket [pre ++ h :: post] with [h]
    carrying the id becomes [pre ++ post], every other bucket is as it
    was, and the id is gone from the table.  When it returns false the
    manager is unchanged.  In both cases a second call with the same id
    returns false and changes nothing. *)
Theorem unregister_removes_exactly_one :
  forall m x,
    NoDup (JsMap.keys (listeners m)) ->
    NoDup (all_ids m) ->
    let r := unregister x m in
    (fst r = true <-> In x (all_ids m))
    /\ (fst r = true ->
        exists name pre (h : Meta) post,
          bucket name m = pre ++ h :: post
          /\ id h = x
          /\ bucket name (snd r) = pre ++ post
          /\ (forall name', name' <> name ->
                JsMap.get name' (listeners (snd r))
                = JsMap.get name' (listeners m)))
    /\ (fst r = false -> snd r = m)
    /\ ~ In x (all_ids (snd r))
    /\ unregister x (snd r) = (false, snd r)
    /\ handlerCounter (snd r) = handlerCounter m.
Proof.
  intros m x Hk Hids r.
  pose proof (@occ_unregister _ m x x Hk) as Ho.
  pose proof (@unregister_found _ m x) as Hfound.
  assert (Hcounter : handlerCounter (snd r) = handlerCounter m).
  { unfold r, unregister.
    now destruct (unregister_loop x _ (listeners m)). }
  subst r. destruct (unregister x m) as [b m'] eqn:E.
  cbn [fst snd] in *.
  assert (Hgone : ~ In x (all_ids m')).
  { destruct b.
    - apply (proj1 (NoDup_occ _)) with (y := x) in Hids.
      destruct (string_dec x x); [|congruence].
      rewrite In_occ. lia.
    - apply unregister_false in E. destruct E as [-> Hnot]. exact Hnot. }
  split; [exact Hfound|]. split; [|split; [|split; [|split]]].
  - intros ->.
    destruct (@unregister_true _ m x m' Hk E)
      as (name & pre & h & post & Hget & Hid & _ & _ & Hls).
    exists name, pre, h, post.
    split; [now apply bucket_get|]. split; [exact Hid|]. split.
    + unfold bucket. rewrite Hls.
      destruct (pre ++ post) as [|y l] eqn:Hpp; cbn [List.length Nat.eqb].
      * now rewrite JsMapFacts.get_delete_eq.
      * now rewrite JsMapFacts.get_set_eq.
    + intros name' Hne. rewrite Hls. destruct (Nat.eqb _ 0).
      * now apply JsMapFacts.get_delete_ne.
      * now apply JsMapFacts.get_set_ne.
  - intros ->. now apply unregister_false in E.
  - exact Hgone.
  - destruct (unregister x m') as [b' m''] eqn:E'.
    destruct b'.
    + exfalso. apply Hgone. apply unregister_found. now rewrite E'.
    + apply unregister_false in E'. now destruct E' as [-> _].
  - exact Hcounter.
Qed.

End UnregisterTheorem.

(** Witness of C4: removing the first of two handlers. *)
Lemma unregister_removes_exactly_one_witness :
  let r := unregister "handler_1" Scenario.two_handlers in
  (fst r = true <-> In "handler_1" (all_ids Scenario.two_handlers))
  /\ (fst r = true ->
      exists name pre (h : EventHandlerMetadata Script) post,
        bucket name Scenario.two_handlers = pre ++ h :: post
        /\ id h = "handler_1"
        /\ bucket name (snd r) = pre ++ post
        /\ (forall name', name' <> name ->
              JsMap.get name' (listeners (snd r))
              = JsMap.get name' (listeners Scenario.two_handlers)))
  /\ (fst r = false -> snd r = Scenario.two_handlers)
  /\ ~ In "handler_1" (all_ids (snd r))
  /\ unregister "handler_1" (snd r) = (false, snd r)
  /\ handlerCounter (snd r) = handlerCounter Scenario.two_handlers.
Proof.
  apply (@unregister_removes_exactly_one Script Scenario.two_handlers
           "handler_1").
  - vm_compute. repeat constructor. intros [].
  - vm_compute. repeat constructor.
    + intros [H|[]]. discriminate H.
    + intros [].
Defined.

(** ** Invariants of the table *)

Section TableInvariants.
Variable Handler : Type.
Local Abbreviation Meta := (EventHandlerMetadata Handler).
Local Abbreviation Manager := (EventManager Handler).
Implicit Types (m : Manager) (name x : string).

Lemma no_empty_bucket_get m name (l : list Meta) :
  no_empty_bucket m -> JsMap.get name (listeners m) = Some l -> l <> [].
Proof.
  intros H Hget. apply JsMapFacts.get_in in Hget.
  unfold no_empty_bucket in H. rewrite Forall_forall in H.
  exact (H _ Hget).
Qed.

Lemma no_empty_bucket_set m name (l : list Meta) :
  no_empty_bucket m -> l <> [] ->
  Forall (fun e => snd e <> []) (JsMap.set name l (listeners m)).
Proof.
  intros H Hl. apply Forall_forall. intros e He.
  apply in_set in He. destruct He as [->|He]; [exact Hl|].
  unfold no_empty_bucket in H. rewrite Forall_forall in H. auto.
Qed.

Lemma no_empty_bucket_delete m name :
  no_empty_bucket m ->
  Forall (fun e => snd e <> []) (JsMap.delete name (listeners m)).
Proof.
  intros H. apply Forall_forall. intros e He. apply in_delete in He.
  unfold no_empty_bucket in H. rewrite Forall_forall in H. auto.
Qed.

Lemma length_nonzero (l : list Meta) :
  Nat.eqb (List.length l) 0 = false -> l <> [].
Proof. now destruct l. Qed.

Lemma no_empty_bucket_op (o : Op Handler) m :
  no_empty_bucket m -> no_empty_bucket (apply_op o m).
Proof.
  intros H. destruct o as [name h p|x|target|name p]; cbn [apply_op].
  - unfold no_empty_bucket, register. cbn [snd listeners].
    assert (Hne : forall l (y : Meta), sort (l ++ [y]) <> []).
    { intros l y Hs. apply (f_equal (@List.length _)) in Hs.
      rewrite sort_length, length_app in Hs. simpl in Hs. lia. }
    unfold JsMap.has.
    destruct (JsMap.get name (listeners m)) eqn:E; cbn [negb].
    + now apply no_empty_bucket_set.
    + rewrite JsMapFacts.get_set_eq, set_set.
      now apply no_empty_bucket_set.
  - unfold no_empty_bucket, unregister, JsMap.entries.
    destruct (unregister_loop x (listeners m) (listeners m))
      as [[|] ls'] eqn:E; cbn [snd listeners].
    + apply unregister_loop_true in E.
      destruct E as (name & handlers & i & _ & _ & ->).
      destruct (Nat.eqb _ 0) eqn:El.
      * now apply no_empty_bucket_delete.
      * apply no_empty_bucket_set; auto. now apply length_nonzero.
    + apply unregister_loop_false in E. now destruct E as [-> _].
  - destruct target as [name|]; cbn [unregisterAll].
    + now apply no_empty_bucket_delete.
    + constructor.
  - unfold no_empty_bucket, unregisterByPriority.
    destruct (JsMap.get name (listeners m)); [|exact H].
    cbn [listeners]. destruct (Nat.eqb _ 0) eqn:El.
    + now apply no_empty_bucket_delete.
    + apply no_empty_bucket_set; auto. now apply length_nonzero.
Qed.

Lemma no_empty_bucket_run (ops : list (Op Handler)) m :
  no_empty_bucket m -> no_empty_bucket (run_ops ops m).
Proof.
  revert m. induction ops as [|o ops IH]; intros m H; [exact H|].
  cbn [run_ops]. now apply IH, no_empty_bucket_op.
Qed.

(** C5.  After any sequence of [register], [unregister],
    [unregisterAll] and [unregisterByPriority] calls on a new manager, no
    key of the table is bound to an empty array: a type has an entry
    exactly when it has a handler, and a type left without handler has
    no entry, a handler count of 0 and [hasHandlers] false. *)
Theorem no_empty_bucket_persists :
  forall (ops : list (Op Handler)),
    let m := run_ops ops new_manager in
    Forall (fun e => snd e <> []) (listeners m)
    /\ (forall name (l : list Meta),
           JsMap.get name (listeners m) = Some l -> l <> [])
    /\ (forall name,
           JsMap.has name (listeners m) = hasHandlers name m)
    /\ (forall name,
           bucket name m = [] ->
           JsMap.has name (listeners m) = false
           /\ getHandlerCount name m = 0
           /\ hasHandlers name m = false).
Proof.
  intros ops m.
  assert (H : no_empty_bucket m).
  { apply no_empty_bucket_run. constructor. }
  split; [exact H|]. split; [|split].
  - intros name l. now apply no_empty_bucket_get.
  - intros name. unfold hasHandlers, JsMap.has.
    destruct (JsMap.get name (listeners m)) as [l|] eqn:E; [|reflexivity].
    apply (no_empty_bucket_get _ H) in E. now destruct l.
  - intros name Hb.
    rewrite hasHandlers_bucket, getHandlerCount_bucket, Hb.
    repeat split. unfold JsMap.has, bucket in *.
    destruct (JsMap.get name (listeners m)) as [l|] eqn:E; [|reflexivity].
    apply (no_empty_bucket_get _ H) in E. congruence.
Qed.

End TableInvariants.

(** Registering a handler on a new manager and unregistering it leaves the
    table empty. *)
Example register_then_unregister :
  forall (name : string) (h : Script) (p : EventPriority),
    let m := snd (register name h p new_manager) in
    unregister "handler_1" m
    = (true, mkManager JsMap.empty 1).
Proof.
  intros name h p. unfold register, unregister, JsMap.has.
  cbn [new_manager listeners handlerCounter JsMap.get JsMap.empty negb
       JsMap.set snd fst].
  rewrite !String.eqb_refl. cbn [app sort fold_right sort_insert].
  cbn [JsMap.entries listeners unregister_loop findIndex id].
  change (String.eqb _ "handler_1") with true.
  cbn [splice1 List.length Nat.eqb]. unfold JsMap.delete.
  cbn [filter fst]. now rewrite String.eqb_refl.
Qed.

(** ** Handler ids *)

Lemma incr_exact (n : N) :
  (n < JsNumber.two53)%N -> JsNumber.incr n = (n + 1)%N.
Proof.
  intros H. unfold JsNumber.incr. apply N.ltb_lt in H. now rewrite H.
Qed.



Section IdTheorems.
Variable Handler : Type.
Local Abbreviation Meta := (EventHandlerMetadata Handler).
Local Abbreviation Manager := (EventManager Handler).
Implicit Types (m : Manager) (ops : list (Op Handler)).

Lemma counter_unregister m x :
  handlerCounter (snd (unregister x m)) = handlerCounter m.
Proof.
  unfold unregister. now destruct (unregister_loop x _ (listeners m)).
Qed.

Lemma counter_unregisterAll m target :
  handlerCounter (unregisterAll target m) = handlerCounter m.
Proof. now destruct target. Qed.

Lemma counter_unregisterByPriority m name p :
  handlerCounter (unregisterByPriority name p m) = handlerCounter m.
Proof.
  unfold unregisterByPriority. now destruct (JsMap.get name (listeners m)).
Qed.


(** While the counter is exact, the ids in the table are ids issued so
    far, each held once, and the next ids issued are the next numbers. *)
Lemma run_ops_fresh ops : forall m (c : nat),
  NoDup (JsMap.keys (listeners m)) ->
  (forall y, occ y (all_ids m) <= 1) ->
  (forall y, In y (all_ids m) -> exists k, 1 <= k <= c /\ y = nth_id k) ->
  handlerCounter m = N.of_nat c ->
  (N.of_nat (c + register_calls ops) <= JsNumber.two53)%N ->
  (forall y, occ y (all_ids (run_ops ops m)) <= 1)
  /\ (forall y, In y (all_ids (run_ops ops m)) ->
                exists k, 1 <= k <= c + register_calls ops /\ y = nth_id k)
  /\ handlerCounter (run_ops ops m) = N.of_nat (c + register_calls ops)
  /\ issued_ids ops m = map nth_id (seq (S c) (register_calls ops)).
Proof.
  induction ops as [|o ops IH]; intros m c Hk Hocc Hin Hc Hbound.
  - unfold register_calls. cbn [filter List.length run_ops issued_ids seq map].
    rewrite Nat.add_0_r. auto.
  - assert (Hle : forall m', (forall y, occ y (all_ids m') <= occ y (all_ids m)) ->
              (forall y, occ y (all_ids m') <= 1)
              /\ (forall y, In y (all_ids m') ->
                    exists k, 1 <= k <= c /\ y = nth_id k)).
    { intros m' Hm'. split.
      - intros y. specialize (Hm' y). specialize (Hocc y). lia.
      - intros y Hy. apply Hin. apply In_occ. apply In_occ in Hy.
        specialize (Hm' y). lia. }
    cbn [run_ops issued_ids].
    destruct o as [name h p|x|target|name p]; cbn [apply_op app].
    + (* register *)
      assert (Hcalls : register_calls (OpRegister name h p :: ops)
                       = S (register_calls ops)) by reflexivity.
      rewrite Hcalls in *.
      assert (Hlt : (handlerCounter m < JsNumber.two53)%N) by lia.
      assert (Hnew : fst (register name h p m) = nth_id (S c)).
      { rewrite register_id, incr_exact by exact Hlt.
        unfold nth_id. rewrite Hc. do 2 f_equal. lia. }
      destruct (IH (snd (register name h p m)) (S c)) as (H1 & H2 & H3 & H4).
      * now apply keys_register.
      * intros y. rewrite occ_register, Hnew.
        destruct (string_dec (nth_id (S c)) y) as [<-|Hne];
          [|specialize (Hocc y); lia].
        assert (Hz : ~ In (nth_id (S c)) (all_ids m)).
        { intros Hy. destruct (Hin _ Hy) as [k [Hk1 Hk2]].
          apply nth_id_inj in Hk2. lia. }
        rewrite In_occ in Hz. lia.
      * intros y Hy. apply In_occ in Hy.
        rewrite occ_register, Hnew in Hy.
        destruct (string_dec (nth_id (S c)) y) as [<-|Hne].
        -- exists (S c). split; [lia | reflexivity].
        -- destruct (Hin y) as [k [Hk1 Hk2]]; [apply In_occ; lia|].
           exists k. split; [lia | exact Hk2].
      * rewrite register_counter, incr_exact by exact Hlt.
        rewrite Hc. lia.
      * replace (S c + register_calls ops) with (c + S (register_calls ops))
          in * by lia. exact Hbound.
      * replace (c + S (register_calls ops)) with (S c + register_calls ops)
          by lia.
        repeat split; auto. cbn [seq map]. now rewrite Hnew, H4.
    + (* unregister *)
      destruct (Hle (snd (unregister x m))) as [Ha Hb].
      { intros y. pose proof (@occ_unregister _ m x y Hk). lia. }
      apply IH; auto.
      * now apply keys_unregister.
      * now rewrite counter_unregister.
    + (* unregisterAll *)
      destruct (Hle (unregisterAll target m)) as [Ha Hb].
      { intros y. apply occ_unregisterAll. }
      apply IH; auto.
      * now apply keys_unregisterAll.
      * now rewrite counter_unregisterAll.
    + (* unregisterByPriority *)
      destruct (Hle (unregisterByPriority name p m)) as [Ha Hb].
      { intros y. apply occ_unregisterByPriority. }
      apply IH; auto.
      * now apply keys_unregisterByPriority.
      * now rewrite counter_unregisterByPriority.
Qed.


End IdTheorems.


Example ids_of_three_registrations :
  issued_ids [OpRegister "MyEvent" tt HIGH; OpRegister "MyEvent" tt HIGH;
              OpRegister "MyEvent" tt LOW] new_manager
  = ["handler_1"; "handler_2"; "handler_3"].
Proof. reflexivity. Qed.

(** *** Past 2^53 registrations the counter stops counting *)

Section CounterSaturation.
Variable Handler : Type.
Implicit Types (m : EventManager Handler).




End CounterSaturation.



Example saturated_id :
  fst (register "MyEvent" tt NORMAL (mkManager JsMap.empty JsNumber.two53))
  = "handler_9007199254740992"
  /\ fst (register "MyEvent" tt NORMAL
            (snd (register "MyEvent" tt NORMAL
                    (mkManager JsMap.empty JsNumber.two53))))
     = "handler_9007199254740992".
Proof. split; reflexivity. Qed.

(** ** Buckets stay in priority order *)

Lemma StronglySorted_remove (A : Type) (R : A -> A -> Prop)
    (pre post : list A) (a : A) :
  StronglySorted R (pre ++ a :: post) -> StronglySorted R (pre ++ post).
Proof.
  induction pre as [|x pre IH]; cbn [app]; intros H;
    inversion H as [|? ? Hs Hall]; subst; [exact Hs|].
  constructor; [now apply IH|].
  apply Forall_app in Hall. destruct Hall as [H1 H2].
  apply Forall_app. split; [exact H1 | now inversion H2].
Qed.

Lemma StronglySorted_filter (A : Type) (R : A -> A -> Prop)
    (f : A -> bool) (l : list A) :
  StronglySorted R l -> StronglySorted R (filter f l).
Proof.
  induction 1 as [|x l Hs IH Hall]; cbn [filter]; [constructor|].
  destruct (f x); [|exact IH]. constructor; [exact IH|].
  apply Forall_forall. intros y Hy. apply filter_In in Hy.
  rewrite Forall_forall in Hall. now apply Hall.
Qed.

Section SortedBuckets.
Variable Handler : Type.
Local Abbreviation Meta := (EventHandlerMetadata Handler).
Local Abbreviation Manager := (EventManager Handler).
Implicit Types (m : Manager) (name x : string).

Lemma buckets_sorted_set m name (l : list Meta) :
  buckets_sorted m -> StronglySorted (@priority_le Handler) l ->
  Forall (fun e => StronglySorted (@priority_le Handler) (snd e))
    (JsMap.set name l (listeners m)).
Proof.
  intros H Hl. apply Forall_forall. intros e He.
  apply in_set in He. destruct He as [->|He]; [exact Hl|].
  unfold buckets_sorted in H. rewrite Forall_forall in H. auto.
Qed.

Lemma buckets_sorted_delete m name :
  buckets_sorted m ->
  Forall (fun e => StronglySorted (@priority_le Handler) (snd e))
    (JsMap.delete name (listeners m)).
Proof.
  intros H. apply Forall_forall. intros e He. apply in_delete in He.
  unfold buckets_sorted in H. rewrite Forall_forall in H. auto.
Qed.

Lemma buckets_sorted_get m name (l : list Meta) :
  buckets_sorted m -> JsMap.get name (listeners m) = Some l ->
  StronglySorted (@priority_le Handler) l.
Proof.
  intros H Hget. apply JsMapFacts.get_in in Hget.
  unfold buckets_sorted in H. rewrite Forall_forall in H.
  exact (H _ Hget).
Qed.

Lemma buckets_sorted_bucket m name :
  buckets_sorted m -> StronglySorted (@priority_le Handler) (bucket name m).
Proof.
  intros H. unfold bucket.
  destruct (JsMap.get name (listeners m)) eqn:E; [|constructor].
  exact (buckets_sorted_get _ H E).
Qed.

Lemma buckets_sorted_op (o : Op Handler) m :
  buckets_sorted m -> buckets_sorted (apply_op o m).
Proof.
  intros H. destruct o as [name h p|x|target|name p]; cbn [apply_op].
  - unfold buckets_sorted, register. cbn [snd listeners].
    unfold JsMap.has.
    destruct (JsMap.get name (listeners m)) eqn:E; cbn [negb].
    + apply buckets_sorted_set; [exact H | apply sort_sorted].
    + rewrite JsMapFacts.get_set_eq, set_set.
      apply buckets_sorted_set; [exact H | apply sort_sorted].
  - unfold buckets_sorted, unregister, JsMap.entries.
    destruct (unregister_loop x (listeners m) (listeners m))
      as [[|] ls'] eqn:E; cbn [snd listeners].
    + apply unregister_loop_true in E.
      destruct E as (name & handlers & i & Hin & Hf & ->).
      destruct (Nat.eqb _ 0).
      * now apply buckets_sorted_delete.
      * apply buckets_sorted_set; [exact H|].
        apply findIndex_Some in Hf.
        destruct Hf as (pre & h & post & -> & _ & _ & ->).
        unfold buckets_sorted in H. rewrite Forall_forall in H.
        apply H in Hin. cbn [snd] in Hin.
        now apply StronglySorted_remove in Hin.
    + apply unregister_loop_false in E. now destruct E as [-> _].
  - destruct target as [name|]; cbn [unregisterAll].
    + now apply buckets_sorted_delete.
    + constructor.
  - unfold buckets_sorted, unregisterByPriority.
    destruct (JsMap.get name (listeners m)) eqn:E; [|exact H].
    cbn [listeners]. destruct (Nat.eqb _ 0).
    + now apply buckets_sorted_delete.
    + apply buckets_sorted_set; [exact H|].
      apply StronglySorted_filter. exact (buckets_sorted_get _ H E).
Qed.

Lemma buckets_sorted_run (ops : list (Op Handler)) m :
  buckets_sorted m -> buckets_sorted (run_ops ops m).
Proof.
  revert m. induction ops as [|o ops IH]; intros m H; [exact H|].
  cbn [run_ops]. now apply IH, buckets_sorted_op.
Qed.

(** On a manager built by the registry's operations, the snapshot of
    [emit] is the bucket itself: sorting the copy changes nothing. *)
Lemma emit_snapshot_is_bucket (Env : Type) (ops : list (Op Handler))
    (ev : Event) (e : Env) :
  emit_snapshot (mkWorld (run_ops ops new_manager) ev e)
  = bucket (constructor_name ev) (run_ops ops new_manager).
Proof.
  unfold emit_snapshot. cbn [event manager].
  apply sort_sorted_id, buckets_sorted_bucket, buckets_sorted_run.
  constructor.
Qed.

End SortedBuckets.

(* ================================================================== *)
(** * Further properties of the dispatch loop *)

Section EmitFurther.
Variables Handler Env Error : Type.
Variable call : Handler -> World Handler Env
                -> Completion Handler Env Error unit.
Local Abbreviation Meta := (EventHandlerMetadata Handler).
Implicit Types (hs pre post : list Meta) (w : World Handler Env).

(** What the loop returns, in terms of the handlers it called. *)
Lemma emit_loop_counts hs : forall n d w n' d' w',
  snd (emit_loop call hs n d w) = Returned (n', d') w' ->
  d' = d ++ map (@detail_of Handler) (fst (emit_loop call hs n d w))
  /\ n' = n + List.length (fst (emit_loop call hs n d w)).
Proof.
  induction hs as [|h hs IH]; intros n d w n' d' w'; cbn [emit_loop].
  - cbn [fst snd map List.length]. intros [= <- <- <-].
    now rewrite app_nil_r, Nat.add_0_r.
  - destruct (event_is_cancelled (event w)).
    + cbn [fst snd map List.length]. intros [= <- <- <-].
      now rewrite app_nil_r, Nat.add_0_r.
    + destruct (call (handler h) w) as [[] w1|e w1]; [|discriminate].
      specialize (IH (S n) (d ++ [mkDetail (priority h) (id h)]) w1 n' d' w').
      destruct (emit_loop call hs _ _ w1) as [inv c]. cbn [fst snd] in *.
      intros Hc. destruct (IH Hc) as [-> ->]. cbn [map List.length].
      split; [now rewrite <- app_assoc | lia].
Qed.

Lemma snapshot_length w :
  List.length (emit_snapshot w)
  = getHandlerCount (constructor_name (event w)) (manager w).
Proof.
  unfold emit_snapshot. now rewrite sort_length, getHandlerCount_bucket.
Qed.

(** X1.  An emission for a type that has no registered handler returns at
    once: no handler is called, the result has [handlerCount = 0] and an
    empty [executedHandlers], and nothing in the world changes. *)
Theorem emit_without_handlers :
  forall w,
    getHandlerCount (constructor_name (event w)) (manager w) = 0 ->
    emit call w = Returned (mkResult (event w) 0 []) w
    /\ emit_invoked call w = [].
Proof.
  intros w H. rewrite <- snapshot_length in H.
  unfold emit, emit_invoked, emit_run.
  destruct (emit_snapshot w); [|discriminate]. now split.
Qed.

(** X2.  The shape of a returned result: [handlerCount] is the length of
    [executedHandlers], it never exceeds the number of handlers the type
    had when [emit] was called, [executedHandlers] describes the called
    handlers in call order, and its priorities are non-decreasing. *)
Theorem emit_result_shape :
  forall w r w',
    emit call w = Returned r w' ->
    handlerCount r = List.length (executedHandlers r)
    /\ handlerCount r
       <= getHandlerCount (constructor_name (event w)) (manager w)
    /\ executedHandlers r = map (@detail_of Handler) (emit_invoked call w)
    /\ StronglySorted
         (fun a b => (priority_value (detail_priority a)
                      <= priority_value (detail_priority b))%Z)
         (executedHandlers r)
    /\ result_event r = event w'.
Proof.
  intros w r w'. unfold emit, emit_invoked, emit_run.
  destruct (emit_loop_prefix call (emit_snapshot w) 0 [] w) as [rest Hrest].
  pose proof (emit_loop_counts (emit_snapshot w) 0 [] w) as Hc.
  pose proof (sort_sorted (bucket (constructor_name (event w)) (manager w)))
    as Hs. fold (emit_snapshot w) in Hs.
  pose proof (snapshot_length w) as Hl.
  destruct (emit_loop call (emit_snapshot w) 0 [] w) as [inv c].
  cbn [fst snd] in *. destruct c as [[n d] w1|e w1]; [|discriminate].
  intros [= <- <-]. destruct (Hc n d w1 eq_refl) as [-> ->].
  cbn [handlerCount executedHandlers result_event app Nat.add].
  rewrite length_map. split; [reflexivity|].
  split; [rewrite <- Hl, Hrest, length_app; lia|].
  split; [reflexivity|]. split; [|reflexivity].
  rewrite Hrest in Hs. apply StronglySorted_app_l in Hs.
  clear - Hs. induction Hs as [|x l Hs IH Hall]; cbn [map]; constructor; auto.
  apply Forall_forall. intros y Hy. apply in_map_iff in Hy.
  destruct Hy as [z [<- Hz]]. rewrite Forall_forall in Hall.
  exact (Hall _ Hz).
Qed.



(** The loop adds no effect of its own to the world. *)
Lemma emit_loop_preserves (P : World Handler Env -> Prop) hs :
  forall n d w,
    (forall h, In h hs -> forall w1,
        P w1 -> P (world_of (call (handler h) w1))) ->
    P w -> P (world_of (snd (emit_loop call hs n d w))).
Proof.
  induction hs as [|h hs IH]; intros n d w Hp Hw; cbn [emit_loop].
  - exact Hw.
  - destruct (event_is_cancelled (event w)); [exact Hw|].
    pose proof (Hp h (or_introl eq_refl) w Hw) as Hh.
    destruct (call (handler h) w) as [[] w1|e w1]; cbn [world_of] in Hh.
    + specialize (IH (S n) (d ++ [mkDetail (priority h) (id h)]) w1).
      destruct (emit_loop call hs _ _ w1) as [inv c]. cbn [snd] in *.
      apply IH; [|exact Hh]. intros h' Hin. apply Hp. now right.
    + exact Hh.
Qed.

(** X4.  [emit] changes the world only through the handlers it calls:
    any property of the world that each handler of the snapshot preserves
    (whether it returns or throws) still holds when [emit] ends, returned
    or thrown.  In particular [emit] itself never writes to the registry
    or to the event. *)
Theorem emit_preserves_invariant :
  forall (P : World Handler Env -> Prop) w,
    (forall h, In h (emit_snapshot w) -> forall w1,
        P w1 -> P (world_of (call (handler h) w1))) ->
    P w ->
    P (world_of (emit call w)).
Proof.
  intros P w Hp Hw.
  pose proof (@emit_loop_preserves P (emit_snapshot w) 0 [] w Hp Hw) as H.
  unfold emit, emit_run.
  destruct (snd (emit_loop call (emit_snapshot w) 0 [] w))
    as [[n d] w1|e w1]; exact H.
Qed.

(** X6.  After [unregisterByPriority(T, p)] an emission of an event of
    type [T] calls no handler of priority [p], whatever the handlers do
    while it runs. *)
Theorem emit_skips_removed_tier :
  forall (m : EventManager Handler) (p : EventPriority) (ev : Event)
         (e : Env),
    Forall (fun h => priority h <> p)
      (emit_invoked call
         (mkWorld (unregisterByPriority (constructor_name ev) p m) ev e)).
Proof.
  intros m p ev e.
  set (w := mkWorld (unregisterByPriority (constructor_name ev) p m) ev e).
  destruct (emit_loop_prefix call (emit_snapshot w) 0 [] w) as [rest Hrest].
  fold (emit_run call w) in Hrest. fold (emit_invoked call w) in Hrest.
  apply Forall_forall. intros h Hin.
  assert (Hs : In h (emit_snapshot w)).
  { rewrite Hrest. apply in_or_app. now left. }
  unfold emit_snapshot, w in Hs. cbn [event manager] in Hs.
  apply (proj1 (sort_in _ _)) in Hs.
  unfold bucket, unregisterByPriority in Hs.
  destruct (JsMap.get (constructor_name ev) (listeners m)) as [b|] eqn:E.
  - cbn [listeners] in Hs.
    assert (Hf : In h (filter (fun r : Meta =>
                   negb (priority_eqb (priority r) p)) b)).
    { destruct (filter _ b) as [|x l] eqn:F; cbn [List.length Nat.eqb] in Hs.
      - now rewrite JsMapFacts.get_delete_eq in Hs.
      - now rewrite JsMapFacts.get_set_eq in Hs. }
    apply filter_In in Hf. destruct Hf as [_ Hf].
    apply negb_true_iff, priority_eqb_neq in Hf. exact Hf.
  - rewrite E in Hs. destruct Hs.
Qed.

End EmitFurther.

(* ================================================================== *)
(** * Further properties of the registry *)

Section RegistryFurther.
Variable Handler : Type.
Local Abbreviation Meta := (EventHandlerMetadata Handler).
Local Abbreviation Manager := (EventManager Handler).
Implicit Types (m : Manager) (h : Handler) (p q : EventPriority).
Implicit Types (name x : string) (l : list Meta).

Lemma sort_insert_perm (y : Meta) l : Permutation (sort_insert y l) (y :: l).
Proof.
  induction l as [|z l IH]; cbn [sort_insert]; [reflexivity|].
  destruct (_ <=? 0)%Z; [reflexivity|].
  rewrite IH. apply perm_swap.
Qed.

Lemma sort_perm l : Permutation (sort l) l.
Proof.
  induction l as [|y l IH]; [reflexivity|].
  cbn [sort fold_right]. fold (sort l).
  rewrite sort_insert_perm. now constructor.
Qed.

(** X7.  [register] adds exactly one record to the bucket of its type: the
    handler count of the type grows by one, [hasHandlers] becomes true,
    [getHandlerIds] lists the old ids and the returned id and nothing
    else, and the records of the type are those it had plus the new one.
    The entries of all other types are untouched. *)
Theorem register_adds_one_record :
  forall m name h p,
    let newid := fst (register name h p m) in
    let m' := snd (register name h p m) in
    getHandlerCount name m' = S (getHandlerCount name m)
    /\ hasHandlers name m' = true
    /\ Permutation (bucket name m') (mkMeta h p newid :: bucket name m)
    /\ Permutation (getHandlerIds name m') (newid :: getHandlerIds name m)
    /\ (forall name', name' <> name ->
          JsMap.get name' (listeners m') = JsMap.get name' (listeners m)).
Proof.
  intros m name h p newid m'.
  assert (Hb : Permutation (bucket name m') (mkMeta h p newid :: bucket name m)).
  { unfold m', newid. rewrite bucket_register_same, sort_perm.
    apply Permutation_sym, Permutation_cons_append. }
  split; [|split; [|split; [|split]]].
  - rewrite !getHandlerCount_bucket.
    now rewrite (Permutation_length Hb).
  - rewrite hasHandlers_bucket, (Permutation_length Hb). reflexivity.
  - exact Hb.
  - rewrite !getHandlerIds_bucket.
    now rewrite (Permutation_map (@id Handler) Hb).
  - intros name' Hne. now apply get_register_other.
Qed.

(** X8.  The three queries agree on every manager: [getHandlerCount] is
    the length of [getHandlerIds], [hasHandlers] is true exactly when the
    count is positive, and for a type without entry they answer 0, the
    empty array and false. *)
Theorem queries_agree :
  forall m name,
    getHandlerCount name m = List.length (getHandlerIds name m)
    /\ hasHandlers name m = Nat.ltb 0 (getHandlerCount name m)
    /\ (JsMap.has name (listeners m) = false ->
        getHandlerCount name m = 0
        /\ getHandlerIds name m = []
        /\ hasHandlers name m = false).
Proof.
  intros m name.
  rewrite hasHandlers_bucket, getHandlerCount_bucket, getHandlerIds_bucket.
  rewrite length_map. split; [reflexivity|]. split; [reflexivity|].
  intros Hno. apply JsMapFacts.has_false in Hno.
  now rewrite (bucket_absent _ _ Hno).
Qed.

(** X9.  An id that no record carries: [unregister] returns false and
    leaves the manager as it was; and that is the only case in which it
    returns false. *)
Theorem unregister_unknown_id :
  forall m x,
    ~ In x (all_ids m) <-> unregister x m = (false, m).
Proof.
  intros m x. split.
  - intros Hnot. destruct (unregister x m) as [[|] m'] eqn:E.
    + exfalso. apply Hnot. apply unregister_found. now rewrite E.
    + apply unregister_false in E. now destruct E as [-> _].
  - intros E. now apply unregister_false in E.
Qed.

Lemma delete_absent (ls : JsMap.t (list Meta)) name :
  JsMap.get name ls = None -> JsMap.delete name ls = ls.
Proof.
  unfold JsMap.delete.
  induction ls as [|[k v] ls IH]; cbn [JsMap.get filter fst]; [reflexivity|].
  destruct (String.eqb k name); [discriminate|].
  intros H. cbn [negb]. now rewrite IH.
Qed.

Lemma delete_delete (ls : JsMap.t (list Meta)) name :
  JsMap.delete name (JsMap.delete name ls) = JsMap.delete name ls.
Proof. apply delete_absent, JsMapFacts.get_delete_eq. Qed.

(** X10.  [unregisterAll(T)] on a type without entry changes nothing, and
    calling it twice is the same as calling it once; neither form of
    [unregisterAll] touches the counter, so the next id issued is the one
    that would have been issued without the call. *)
Theorem unregisterAll_absent_and_twice :
  forall m (target : option string) name h p,
    (JsMap.has name (listeners m) = false ->
     unregisterAll (Some name) m = m)
    /\ unregisterAll target (unregisterAll target m) = unregisterAll target m
    /\ handlerCounter (unregisterAll target m) = handlerCounter m
    /\ fst (register name h p (unregisterAll target m))
       = fst (register name h p m).
Proof.
  intros m target name h p. split; [|split; [|split]].
  - intros Hno. apply JsMapFacts.has_false in Hno.
    unfold unregisterAll. rewrite delete_absent by exact Hno.
    now destruct m.
  - destruct target as [t|]; cbn [unregisterAll listeners handlerCounter].
    + now rewrite delete_delete.
    + reflexivity.
  - now destruct target.
  - rewrite !register_id. now destruct target.
Qed.

Lemma filter_twice (f : Meta -> bool) l : filter f (filter f l) = filter f l.
Proof.
  induction l as [|y l IH]; [reflexivity|].
  cbn [filter]. destruct (f y) eqn:E; [|exact IH].
  cbn [filter]. now rewrite E, IH.
Qed.

(** X11.  [unregisterByPriority] is idempotent: a second call with the
    same type and priority leaves the manager exactly as the first one
    left it. *)
Theorem unregisterByPriority_twice :
  forall m name p,
    unregisterByPriority name p (unregisterByPriority name p m)
    = unregisterByPriority name p m.
Proof.
  intros m name p. unfold unregisterByPriority at 2 3.
  destruct (JsMap.get name (listeners m)) as [b|] eqn:E.
  - destruct (filter _ b) as [|y l] eqn:F; cbn [List.length Nat.eqb].
    + unfold unregisterByPriority. cbn [listeners].
      now rewrite JsMapFacts.get_delete_eq.
    + unfold unregisterByPriority. cbn [listeners handlerCounter].
      rewrite JsMapFacts.get_set_eq, <- F, filter_twice, F.
      cbn [List.length Nat.eqb]. now rewrite set_set.
  - unfold unregisterByPriority. now rewrite E.
Qed.

(** The counter after an operation. *)
Lemma counter_apply_op (o : Op Handler) m :
  handlerCounter (apply_op o m)
  = match o with
    | OpRegister _ _ _ => JsNumber.incr (handlerCounter m)
    | _ => handlerCounter m
    end.
Proof.
  destruct o; cbn [apply_op].
  - apply register_counter.
  - apply counter_unregister.
  - apply counter_unregisterAll.
  - apply counter_unregisterByPriority.
Qed.

Lemma counter_run_ops (ops : list (Op Handler)) : forall m,
  (handlerCounter m <= JsNumber.two53)%N ->
  handlerCounter (run_ops ops m)
  = N.min (handlerCounter m + N.of_nat (register_calls ops)) JsNumber.two53.
Proof.
  induction ops as [|o ops IH]; intros m Hm.
  - unfold register_calls. cbn [run_ops filter List.length].
    change (N.of_nat 0) with 0%N. lia.
  - cbn [run_ops].
    assert (Hstep : (handlerCounter (apply_op o m) <= JsNumber.two53)%N).
    { rewrite counter_apply_op. destruct o; auto. unfold JsNumber.incr.
      destruct (N.ltb_spec (handlerCounter m) JsNumber.two53); lia. }
    rewrite (IH _ Hstep), counter_apply_op.
    destruct o as [name h p| | |];
      [|unfold register_calls; cbn [filter]; reflexivity..].
    replace (register_calls (OpRegister name h p :: ops))
      with (S (register_calls ops)) by reflexivity.
    unfold JsNumber.incr.
    destruct (N.ltb_spec (handlerCounter m) JsNumber.two53); lia.
Qed.

(** X12.  On a manager that started new, the counter is the number of
    [register] calls made so far, capped at 2^53: removals never lower or
    reset it, and the id a [register] call returns is [handler_<c>] for
    the counter value [c] that the call leaves. *)
Theorem counter_counts_register_calls :
  forall (ops : list (Op Handler)) name h p,
    let m := run_ops ops new_manager in
    handlerCounter m
    = N.min (N.of_nat (register_calls ops)) JsNumber.two53
    /\ fst (register name h p m)
       = String.append "handler_"
           (JsNumber.to_string (handlerCounter (snd (register name h p m))))
    /\ (handlerCounter m
        <= handlerCounter (snd (register name h p m)) <= JsNumber.two53)%N.
Proof.
  intros ops name h p m.
  assert (Hc : handlerCounter m
               = N.min (N.of_nat (register_calls ops)) JsNumber.two53).
  { unfold m. rewrite counter_run_ops.
    - now change (handlerCounter (@new_manager Handler)) with 0%N.
    - change (handlerCounter (@new_manager Handler)) with 0%N. lia. }
  split; [exact Hc|]. split; [reflexivity|].
  rewrite register_counter. unfold JsNumber.incr.
  destruct (N.ltb_spec (handlerCounter m) JsNumber.two53); lia.
Qed.

End RegistryFurther.

Lemma last_default_irrelevant (A : Type) (a : A) (l : list A) (d d' : A) :
  last (a :: l) d = last (a :: l) d'.
Proof.
  revert a. induction l as [|b l IH]; intros a; [reflexivity|].
  change (last (a :: b :: l) d) with (last (b :: l) d).
  change (last (a :: b :: l) d') with (last (b :: l) d'). apply IH.
Qed.

(** X13.  Once an event is cancelled, no further [cancel] call clears the
    flag, and the reason read back is the one given by the last call (the
    empty string when that call had no argument). *)
Theorem cancel_is_absorbing :
  forall (e : CancellableEvent) (r : option string)
         (rs : list (option string)),
    let e' := fold_left (fun e r => cancel r e) rs (cancel r e) in
    isCancelled e' = true
    /\ getCancelReason e'
       = match last rs r with Some s => s | None => "" end.
Proof.
  intros e r rs. revert e r.
  induction rs as [|r' rs IH]; intros e r; [now split|].
  cbn [fold_left]. specialize (IH (cancel r e) r').
  destruct IH as [H1 H2]. split; [exact H1|].
  cbn zeta in H2. rewrite H2. destruct rs as [|o rs]; [reflexivity|].
  change (last (r' :: o :: rs) r) with (last (o :: rs) r).
  now rewrite (last_default_irrelevant o rs r' r).
Qed.

(* ================================================================== *)
(** * Registering and unregistering *)

Section RoundTrip.
Variable Handler : Type.
Local Abbreviation Meta := (EventHandlerMetadata Handler).
Local Abbreviation Manager := (EventManager Handler).
Implicit Types (m : Manager) (h : Handler) (p : EventPriority).
Implicit Types (name n : string) (l : list Meta).

Lemma splice_is_remove_first (pred : Meta -> bool) l i :
  findIndex pred l = Some i -> splice1 i l = remove_first pred l.
Proof.
  revert i. induction l as [|z l IH]; intros i; cbn [findIndex]; [discriminate|].
  cbn [remove_first]. destruct (pred z).
  - now intros [= <-].
  - destruct (findIndex pred l) as [j|]; [|discriminate].
    intros [= <-]. cbn [splice1]. now rewrite (IH j eq_refl).
Qed.

Lemma findIndex_found (pred : Meta -> bool) l (x : Meta) :
  In x l -> pred x = true -> exists i, findIndex pred l = Some i.
Proof.
  induction l as [|z l IH]; [intros []|].
  intros Hin Hx. cbn [findIndex]. destruct (pred z) eqn:Hz; [now eexists|].
  destruct Hin as [->|Hin]; [congruence|].
  destruct (IH Hin Hx) as [i ->]. now eexists.
Qed.

(** Removing the record of id [n] and inserting a record of another id
    commute on an array in priority order. *)
Lemma remove_first_sort_insert n (y : Meta) l :
  StronglySorted (@priority_le Handler) l ->
  String.eqb (id y) n = false ->
  remove_first (fun r => String.eqb (id r) n) (sort_insert y l)
  = sort_insert y (remove_first (fun r => String.eqb (id r) n) l).
Proof.
  intros Hs Hy. induction Hs as [|z l Hs IH Hall]; cbn [sort_insert remove_first].
  - now rewrite Hy.
  - unfold compare_priority at 1.
    destruct (_ <=? 0)%Z eqn:Hle; cbn [remove_first]; rewrite ?Hy.
    + destruct (String.eqb (id z) n) eqn:Hz.
      * destruct Hall as [|t l Ht Hall']; cbn [sort_insert]; [reflexivity|].
        unfold compare_priority. apply Z.leb_le in Hle.
        unfold priority_le in Ht.
        destruct (_ <=? 0)%Z eqn:Hle'; [reflexivity|].
        apply Z.leb_gt in Hle'. lia.
      * cbn [sort_insert]. unfold compare_priority. now rewrite Hle.
    + destruct (String.eqb (id z) n) eqn:Hz; [reflexivity|].
      cbn [sort_insert]. unfold compare_priority. now rewrite Hle, IH.
Qed.

(** Pushing a record with a new id, sorting, and removing that id gives
    the sorted array of the old records. *)
Lemma remove_first_sort_pushed n (x : Meta) l :
  id x = n -> ~ In n (map (@id Handler) l) ->
  remove_first (fun r => String.eqb (id r) n) (sort (l ++ [x])) = sort l.
Proof.
  intros Hx. induction l as [|y l IH]; intros Hfresh.
  - cbn. now rewrite Hx, String.eqb_refl.
  - cbn [app sort fold_right]. fold (sort (l ++ [x])). fold (sort l).
    rewrite remove_first_sort_insert.
    + rewrite IH; [reflexivity|]. intros Hin. apply Hfresh. now right.
    + apply sort_sorted.
    + apply String.eqb_neq. intros Hy. apply Hfresh. now left.
Qed.

Lemma set_same (ls : JsMap.t (list Meta)) name l :
  JsMap.get name ls = Some l -> JsMap.set name l ls = ls.
Proof.
  induction ls as [|[k v] ls IH]; cbn [JsMap.get JsMap.set]; [discriminate|].
  destruct (String.eqb k name) eqn:E.
  - now intros [= ->].
  - intros H. now rewrite IH.
Qed.

Lemma delete_set_absent (ls : JsMap.t (list Meta)) name l :
  JsMap.get name ls = None -> JsMap.delete name (JsMap.set name l ls) = ls.
Proof.
  unfold JsMap.delete.
  induction ls as [|[k v] ls IH]; cbn [JsMap.get JsMap.set filter fst].
  - intros _. now rewrite String.eqb_refl.
  - destruct (String.eqb k name) eqn:E; [discriminate|].
    intros H. cbn [filter fst]. rewrite E. cbn [negb]. now rewrite IH.
Qed.

(** The loop of [unregister] when one bucket only holds the id. *)
Lemma unregister_loop_unique n name (S : list Meta) i entries :
  forall ls,
    (forall k v, In (k, v) entries -> k <> name ->
                 ~ In n (map (@id Handler) v)) ->
    (forall v, In (name, v) entries -> v = S) ->
    In (name, S) entries ->
    findIndex (fun r => String.eqb (id r) n) S = Some i ->
    unregister_loop n entries ls
    = (true,
       if Nat.eqb (List.length (splice1 i S)) 0
       then JsMap.delete name ls
       else JsMap.set name (splice1 i S) ls).
Proof.
  induction entries as [|[k v] entries IH]; intros ls Hother Hname Hin Hf.
  - destruct Hin.
  - cbn [unregister_loop].
    destruct (findIndex (fun r => String.eqb (id r) n) v) as [j|] eqn:E.
    + destruct (String.eqb_spec k name) as [->|Hne].
      * rewrite (Hname v (or_introl eq_refl)) in E.
        rewrite Hf in E. injection E as <-.
        now rewrite (Hname v (or_introl eq_refl)).
      * exfalso. apply (Hother k v (or_introl eq_refl) Hne).
        apply findIndex_Some in E.
        destruct E as (pre & r & post & -> & Hr & _).
        apply String.eqb_eq in Hr. rewrite <- Hr. apply in_map, in_elt.
    + apply IH; auto.
      * intros k' v' Hin'. apply Hother. now right.
      * intros v' Hin'. apply Hname. now right.
      * destruct Hin as [[= -> ->]|Hin]; [congruence | exact Hin].
Qed.

(** On a well-formed table, unregistering the id that [register] just
    returned restores the table. *)
Lemma register_unregister_restores m name h p :
  NoDup (JsMap.keys (listeners m)) ->
  buckets_sorted m ->
  no_empty_bucket m ->
  ~ In (fst (register name h p m)) (all_ids m) ->
  unregister (fst (register name h p m)) (snd (register name h p m))
  = (true, mkManager (listeners m) (JsNumber.incr (handlerCounter m))).
Proof.
  intros Hk Hsorted Hne Hfresh.
  set (n := fst (register name h p m)) in *.
  set (x := mkMeta h p n).
  set (S := sort (bucket name m ++ [x])).
  assert (Hget : JsMap.get name (listeners (snd (register name h p m)))
                 = Some S) by apply get_register_same.
  assert (Hfb : ~ In n (map (@id Handler) (bucket name m))).
  { intros Hin. apply Hfresh. unfold bucket in Hin.
    destruct (JsMap.get name (listeners m)) as [b|] eqn:E; [|destruct Hin].
    apply JsMapFacts.get_in in E. unfold all_ids, table_ids.
    apply in_flat_map. now exists (name, b). }
  assert (Hrem : remove_first (fun r => String.eqb (id r) n) S
                 = bucket name m).
  { unfold S. rewrite remove_first_sort_pushed by auto.
    apply sort_sorted_id. now apply buckets_sorted_bucket. }
  destruct (@findIndex_found (fun r => String.eqb (id r) n) S x) as [i Hi].
  { unfold S. apply sort_in, in_or_app. right. now left. }
  { cbn [x id]. apply String.eqb_refl. }
  assert (Hsplice : splice1 i S = bucket name m).
  { now rewrite (splice_is_remove_first _ _ Hi). }
  assert (Hk' : NoDup (JsMap.keys (listeners (snd (register name h p m)))))
    by now apply keys_register.
  unfold unregister, JsMap.entries.
  rewrite (@unregister_loop_unique n name S i).
  - rewrite Hsplice. f_equal. rewrite register_counter. f_equal.
    unfold register, bucket. cbn [snd listeners]. unfold JsMap.has.
    destruct (JsMap.get name (listeners m)) as [b|] eqn:E; cbn [negb].
    + assert (Hb : b <> []) by exact (no_empty_bucket_get _ Hne E).
      destruct b as [|b0 b]; [congruence|]. cbn [List.length Nat.eqb].
      rewrite set_set. now apply set_same.
    + cbn [List.length Nat.eqb]. rewrite set_set.
      now apply delete_set_absent.
  - intros k v Hin Hkn Hv. apply Hfresh.
    assert (Hin0 : In (k, v) (listeners m)).
    { unfold register in Hin. cbn [snd listeners] in Hin.
      apply in_set in Hin. destruct Hin as [[= -> _]|Hin]; [congruence|].
      destruct (negb _); [|exact Hin].
      apply in_set in Hin. destruct Hin as [[= -> _]|Hin];
        [congruence | exact Hin]. }
    unfold all_ids, table_ids. apply in_flat_map. now exists (k, v).
  - intros v Hin. apply JsMapFacts.in_get in Hin; [|exact Hk']. congruence.
  - now apply JsMapFacts.get_in.
  - exact Hi.
Qed.

(** X14.  On a manager built from a new one by fewer than 2^53
    [register] calls (and any removals), registering a handler and then
    unregistering the returned id succeeds and gives back the very table
    there was before, entry order included; only the counter has moved
    on by one. *)
Theorem register_then_unregister_restores :
  forall (ops : list (Op Handler)) name h p,
    (N.of_nat (register_calls ops) < JsNumber.two53)%N ->
    let m := run_ops ops new_manager in
    unregister (fst (register name h p m)) (snd (register name h p m))
    = (true, mkManager (listeners m) (handlerCounter m + 1)).
Proof.
  intros ops name h p Hbound m.
  destruct (@run_ops_fresh Handler ops new_manager 0)
    as (_ & Hids & Hc & _); try (cbn [Nat.add]; lia).
  - constructor.
  - intros y. cbn. lia.
  - intros y [].
  - reflexivity.
  - cbn [Nat.add] in *. fold m in Hids, Hc.
    assert (Hlt : (handlerCounter m < JsNumber.two53)%N) by lia.
    rewrite <- (incr_exact Hlt).
    apply register_unregister_restores.
    + apply keys_run_ops. constructor.
    + apply buckets_sorted_run. constructor.
    + apply no_empty_bucket_run. constructor.
    + intros Hin. destruct (Hids _ Hin) as [k [Hk Heq]].
      rewrite register_id, incr_exact in Heq by exact Hlt.
      rewrite Hc in Heq.
      replace (N.of_nat (register_calls ops) + 1)%N
        with (N.of_nat (S (register_calls ops))) in Heq by lia.
      fold (nth_id (S (register_calls ops))) in Heq.
      apply nth_id_inj in Heq. lia.
Qed.

End RoundTrip.

(* ================================================================== *)
(** * The registry as [emit] reads it *)

Section RegistryAndEmit.
Variables Handler Env Error : Type.
Variable call : Handler -> World Handler Env
                -> Completion Handler Env Error unit.
Local Abbreviation Meta := (EventHandlerMetadata Handler).

(** X15.  On a manager built by the registry's operations every bucket is
    in non-decreasing priority order, so [getHandlerIds] lists the ids in
    the order in which [emit] goes through the handlers: the ids of the
    handlers an emission calls are an initial stretch of the ids that
    [getHandlerIds] returned when [emit] was called. *)
Theorem ids_listed_in_call_order :
  forall (ops : list (Op Handler)) (ev : Event) (e : Env),
    let m := run_ops ops new_manager in
    let w := mkWorld m ev e in
    StronglySorted (@priority_le Handler) (bucket (constructor_name ev) m)
    /\ map (@id Handler) (emit_snapshot w)
       = getHandlerIds (constructor_name ev) m
    /\ (exists rest,
           getHandlerIds (constructor_name ev) m
           = map (@id Handler) (emit_invoked call w) ++ rest).
Proof.
  intros ops ev e m w.
  assert (Hs : StronglySorted (@priority_le Handler)
                 (bucket (constructor_name ev) m)).
  { apply buckets_sorted_bucket, buckets_sorted_run. constructor. }
  assert (Hsnap : emit_snapshot w = bucket (constructor_name ev) m).
  { unfold emit_snapshot, w. cbn [event manager]. now apply sort_sorted_id. }
  split; [exact Hs|]. split.
  - now rewrite Hsnap, getHandlerIds_bucket.
  - destruct (emit_loop_prefix call (emit_snapshot w) 0 [] w) as [rest Hrest].
    fold (emit_run call w) in Hrest. fold (emit_invoked call w) in Hrest.
    exists (map (@id Handler) rest).
    now rewrite getHandlerIds_bucket, <- Hsnap, Hrest, map_app.
Qed.

(** X16.  The sorted copy that [emit] iterates over holds exactly the
    records of the bucket, each as often as the bucket holds it; so
    [emit] never calls a handler that was not registered for the event's
    type when [emit] was called, and calls no more handlers than the type
    had. *)
Theorem emit_calls_only_registered :
  forall (w : World Handler Env),
    Permutation (emit_snapshot w)
      (bucket (constructor_name (event w)) (manager w))
    /\ (forall h, In h (emit_invoked call w) ->
                  In h (bucket (constructor_name (event w)) (manager w)))
    /\ List.length (emit_invoked call w)
       <= getHandlerCount (constructor_name (event w)) (manager w).
Proof.
  intros w.
  destruct (emit_loop_prefix call (emit_snapshot w) 0 [] w) as [rest Hrest].
  fold (emit_run call w) in Hrest. fold (emit_invoked call w) in Hrest.
  split; [apply sort_perm|]. split.
  - intros h Hin. apply (sort_in h). fold (emit_snapshot w).
    rewrite Hrest. apply in_or_app. now left.
  - rewrite <- snapshot_length, Hrest, length_app. lia.
Qed.

End RegistryAndEmit.

(* ================================================================== *)
(** * Removal by priority, composed *)

Section TierRemoval.
Variable Handler : Type.
Local Abbreviation Meta := (EventHandlerMetadata Handler).
Local Abbreviation Manager := (EventManager Handler).
Implicit Types (m : Manager) (p q : EventPriority) (name : string).
Implicit Types (l : list Meta).

Lemma filter_comm (f g : Meta -> bool) l :
  filter f (filter g l) = filter g (filter f l).
Proof.
  induction l as [|y l IH]; [reflexivity|].
  cbn [filter]. destruct (g y) eqn:G, (f y) eqn:F; cbn [filter];
    rewrite ?G, ?F, ?IH; reflexivity.
Qed.

Lemma delete_set (ls : JsMap.t (list Meta)) name l :
  JsMap.delete name (JsMap.set name l ls) = JsMap.delete name ls.
Proof.
  unfold JsMap.delete.
  induction ls as [|[k v] ls IH]; cbn [JsMap.set filter fst].
  - now rewrite String.eqb_refl.
  - destruct (String.eqb k name) eqn:E; cbn [filter fst]; rewrite E;
      cbn [negb]; [reflexivity | now rewrite IH].
Qed.

(** [unregisterByPriority] on a bucket [b], as a function of the
    survivors. *)
Lemma unregisterByPriority_get m name p (b : list Meta) :
  JsMap.get name (listeners m) = Some b ->
  unregisterByPriority name p m
  = mkManager
      (match filter (fun r : Meta => negb (priority_eqb (priority r) p)) b with
       | [] => JsMap.delete name (listeners m)
       | y :: s => JsMap.set name (y :: s) (listeners m)
       end)
      (handlerCounter m).
Proof.
  intros E. unfold unregisterByPriority. rewrite E.
  now destruct (filter _ b).
Qed.

(** X17.  Removals by priority commute: removing tier [p] and then tier
    [q] of a type leaves exactly the manager that removing [q] and then
    [p] leaves. *)
Theorem unregisterByPriority_commutes :
  forall m name p q,
    unregisterByPriority name p (unregisterByPriority name q m)
    = unregisterByPriority name q (unregisterByPriority name p m).
Proof.
  intros m name p q.
  destruct (JsMap.get name (listeners m)) as [b|] eqn:E.
  - set (fp := fun r : Meta => negb (priority_eqb (priority r) p)).
    set (fq := fun r : Meta => negb (priority_eqb (priority r) q)).
    assert (Hside : forall (f g : Meta -> bool) (c : N),
      (match filter g b with
       | [] => mkManager (JsMap.delete name (listeners m)) c
       | y :: s =>
           match filter f (y :: s) with
           | [] => mkManager (JsMap.delete name (listeners m)) c
           | z :: t => mkManager (JsMap.set name (z :: t) (listeners m)) c
           end
       end)
      = match filter f (filter g b) with
        | [] => mkManager (JsMap.delete name (listeners m)) c
        | z :: t => mkManager (JsMap.set name (z :: t) (listeners m)) c
        end).
    { intros f g c. now destruct (filter g b). }
    assert (Hone : forall (pa pb : EventPriority),
      unregisterByPriority name pa (unregisterByPriority name pb m)
      = match filter (fun r : Meta => negb (priority_eqb (priority r) pa))
                (filter (fun r : Meta => negb (priority_eqb (priority r) pb))
                   b) with
        | [] => mkManager (JsMap.delete name (listeners m)) (handlerCounter m)
        | z :: t =>
            mkManager (JsMap.set name (z :: t) (listeners m))
              (handlerCounter m)
        end).
    { intros pa pb. rewrite <- Hside.
      rewrite (@unregisterByPriority_get m name pb b E).
      destruct (filter _ b) as [|y s] eqn:F.
      - unfold unregisterByPriority. cbn [listeners].
        now rewrite JsMapFacts.get_delete_eq.
      - rewrite (@unregisterByPriority_get _ name pa (y :: s));
          [|cbn [listeners]; apply JsMapFacts.get_set_eq].
        cbn [listeners handlerCounter].
        destruct (filter _ (y :: s)); [now rewrite delete_set|].
        now rewrite set_set. }
    rewrite (Hone p q), (Hone q p). now rewrite filter_comm.
  - unfold unregisterByPriority. now rewrite E, E.
Qed.

(** X18.  On a manager built by the registry's operations, removing a
    tier in which the type has no handler changes nothing at all. *)
Theorem unregisterByPriority_absent_tier :
  forall (ops : list (Op Handler)) name p,
    let m := run_ops ops new_manager in
    (forall r, In r (bucket name m) -> priority r <> p) ->
    unregisterByPriority name p m = m.
Proof.
  intros ops name p m Hnone.
  assert (Hne : no_empty_bucket m).
  { apply no_empty_bucket_run. constructor. }
  unfold bucket in Hnone.
  destruct (JsMap.get name (listeners m)) as [b|] eqn:E.
  - rewrite (@unregisterByPriority_get m name p b E).
    assert (Hf : filter (fun r : Meta => negb (priority_eqb (priority r) p)) b
                 = b).
    { clear E. induction b as [|y b IH]; [reflexivity|].
      cbn [filter].
      assert (Hy : priority_eqb (priority y) p = false).
      { apply priority_eqb_neq, Hnone. now left. }
      rewrite Hy. cbn [negb]. rewrite IH; [reflexivity|].
      intros r Hr. apply Hnone. now right. }
    rewrite Hf. pose proof (no_empty_bucket_get _ Hne E) as Hb.
    destruct b as [|y s]; [congruence|].
    rewrite (set_same _ _ E). now destruct m.
  - unfold unregisterByPriority. now rewrite E.
Qed.

End TierRemoval.

(* ================================================================== *)
(** * Instances *)

(** Witness of X1: an emission on a new manager. *)
Lemma emit_without_handlers_witness :
  emit_script (mkWorld new_manager Scenario.my_event [])
  = Returned (mkResult Scenario.my_event 0 [])
      (mkWorld new_manager Scenario.my_event [])
  /\ emit_invoked run_script (mkWorld new_manager Scenario.my_event []) = [].
Proof.
  apply (@emit_without_handlers Script (list string) string run_script
           (mkWorld new_manager Scenario.my_event [])).
  reflexivity.
Defined.

(** Witness of X2: the result of the priority-order scenario. *)
Lemma emit_result_shape_witness :
  let r := mkResult Scenario.my_event 3
             [mkDetail MONITOR "handler_3"; mkDetail HIGH "handler_2";
              mkDetail LOWEST "handler_1"] in
  handlerCount r = List.length (executedHandlers r)
  /\ handlerCount r
     <= getHandlerCount
          (constructor_name (event Scenario.priority_order))
          (manager Scenario.priority_order)
  /\ executedHandlers r
     = map (@detail_of Script)
         (emit_invoked run_script Scenario.priority_order)
  /\ StronglySorted
       (fun a b => (priority_value (detail_priority a)
                    <= priority_value (detail_priority b))%Z)
       (executedHandlers r)
  /\ result_event r
     = event (mkWorld (manager Scenario.priority_order) Scenario.my_event
                ["monitor"; "high"; "low"]).
Proof.
  apply (@emit_result_shape Script (list string) string run_script
           Scenario.priority_order).
  reflexivity.
Defined.


(** Witness of X4: handlers that only write to the log leave the registry
    as it was, and so does the emission. *)
Lemma emit_preserves_invariant_witness :
  manager (world_of (emit run_script Scenario.priority_order))
  = manager Scenario.priority_order.
Proof.
  apply (@emit_preserves_invariant Script (list string) string run_script
           (fun w => manager w = manager Scenario.priority_order)
           Scenario.priority_order).
  - intros h Hin w1 Hw1. vm_compute in Hin.
    destruct Hin as [<-|[<-|[<-|[]]]]; exact Hw1.
  - reflexivity.
Defined.

(** Witness of X5: the throwing scenario, read backwards. *)
Lemma emit_threw_inv_witness :
  exists pre (h : EventHandlerMetadata Script) post w1,
    emit_snapshot Scenario.throwing = pre ++ h :: post
    /\ dispatched run_script pre Scenario.throwing w1
    /\ event_is_cancelled (event w1) = false
    /\ run_script (handler h) w1
       = Threw "boom"
           (mkWorld (manager Scenario.throwing) Scenario.my_event
              ["first"; "second"]).
Proof.
  apply (@emit_threw_inv Script (list string) string run_script
           Scenario.throwing "boom"
           (mkWorld (manager Scenario.throwing) Scenario.my_event
              ["first"; "second"])).
  reflexivity.
Defined.

(** Witness of X14: a third handler registered on the manager of two and
    unregistered again. *)
Lemma register_then_unregister_restores_witness :
  let ops : list (Op Script) :=
    [OpRegister "MyEvent" [Push "first"] NORMAL;
     OpRegister "MyEvent" [Push "second"] NORMAL] in
  let m := run_ops ops new_manager in
  unregister (fst (register "MyEvent" [Push "third"] HIGH m))
    (snd (register "MyEvent" [Push "third"] HIGH m))
  = (true, mkManager (listeners m) (handlerCounter m + 1)).
Proof.
  apply (@register_then_unregister_restores Script
           [OpRegister "MyEvent" [Push "first"] NORMAL;
            OpRegister "MyEvent" [Push "second"] NORMAL]
           "MyEvent" [Push "third"] HIGH).
  vm_compute. reflexivity.
Defined.

(** Witness of X18: no handler of the three is at priority NORMAL. *)
Lemma unregisterByPriority_absent_tier_witness :
  unregisterByPriority "MyEvent" NORMAL
    (run_ops [OpRegister "MyEvent" ([] : Script) HIGH;
              OpRegister "MyEvent" [] HIGH;
              OpRegister "MyEvent" [] LOW]
       new_manager)
  = run_ops [OpRegister "MyEvent" ([] : Script) HIGH;
             OpRegister "MyEvent" [] HIGH;
             OpRegister "MyEvent" [] LOW]
      new_manager.
Proof.
  apply (@unregisterByPriority_absent_tier Script
           [OpRegister "MyEvent" [] HIGH; OpRegister "MyEvent" [] HIGH;
            OpRegister "MyEvent" [] LOW]
           "MyEvent" NORMAL).
  intros r Hin. vm_compute in Hin.
  destruct Hin as [<-|[<-|[<-|[]]]]; discriminate.
Defined.
